(** * Stonebridge rep-connect server: the message gateway of [server.js]

    A shallow embedding of [src/server/server.js]: phone normalisation
    ([normalizeUS]), the in-memory message log, the route handlers and the
    best-effort HubSpot mirror, followed by the properties of the
    specification that concern them. *)

From Stdlib Require Import Bool Arith ZArith Lia List String Ascii.
From Stdlib Require Import Permutation Sorted OrdersEx RelationClasses.
Import ListNotations.
Local Open Scope list_scope.
Local Open Scope string_scope.

(* ================================================================== *)
(** ** JavaScript values reaching the handlers *)

(** The values of one field of a request as modelled here: an absent field
    reads [undefined], form and query fields are strings, and a JSON body
    may also carry [null] and booleans.  Numbers, arrays and objects, which
    a JSON body or a repeated parameter can carry as well, are left out.
    Strings are sequences of bytes; the code only inspects ASCII digits and
    compares ASCII-only ISO timestamps, for which byte order and UTF-16
    order agree. *)
Inductive jsval : Type :=
| JUndefined
| JNull
| JBool (b : bool)
| JStr (s : string).

Definition jsval_eq_dec (a b : jsval) : {a = b} + {a <> b}.
Proof. decide equality; [apply bool_dec | apply string_dec]. Defined.

(** [a === b] on these primitive values. *)
Definition strict_eq (a b : jsval) : bool :=
  if jsval_eq_dec a b then true else false.

(** ToBoolean: what [!p], [a || b] and [c ? x : y] test. *)
Definition truthy (v : jsval) : bool :=
  match v with
  | JUndefined | JNull => false
  | JBool b => b
  | JStr s => negb (s =? "")
  end.

(** [String(p)]. *)
Definition to_String (v : jsval) : string :=
  match v with
  | JUndefined => "undefined"
  | JNull => "null"
  | JBool true => "true"
  | JBool false => "false"
  | JStr s => s
  end.

(** [a || b]. *)
Definition js_or (a b : jsval) : jsval := if truthy a then a else b.

(* ================================================================== *)
(** ** PhoneIdentity: [normalizeUS] *)

(** The class [\d] of a regular expression without the [u] flag. *)
Definition is_digit (c : ascii) : bool :=
  (("0" <=? c) && (c <=? "9"))%char.

(** [s.replace(/[^\d]/g, '')]. *)
Fixpoint strip_non_digits (s : string) : string :=
  match s with
  | EmptyString => EmptyString
  | String c rest =>
      if is_digit c then String c (strip_non_digits rest)
      else strip_non_digits rest
  end.

(** [s.startsWith(p)]. *)
Definition startsWith (s p : string) : bool := String.prefix p s.

(** [normalizeUS], lines 45-52, branch by branch. *)
Definition normalizeUS (p : jsval) : jsval :=
  if negb (truthy p) then p
  else
    let digits := strip_non_digits (to_String p) in
    if (String.length digits =? 10)%nat then JStr ("+1" ++ digits)
    else if startsWith digits "1" && (String.length digits =? 11)%nat
         then JStr ("+" ++ digits)
    else if startsWith digits "+" then JStr digits
    else JStr ("+" ++ digits).

(** The prefix that [normalizeUS] ends up putting in front of a digit string
    (see [normalizeUS_truthy]). *)
Definition country_prefix (digits : string) : string :=
  if (String.length digits =? 10)%nat then "+1" else "+".

(* ================================================================== *)
(** ** The message log *)

(** [a < b] on two strings: lexicographic on code units.  [created_at] and
    [last_at] hold [dayjs().toISOString()] readings. *)
Definition str_lt (a b : string) : bool := String.ltb a b.

(** [a <= b], read off [b < a]. *)
Definition str_le (a b : string) : Prop := str_lt b a = false.

Inductive direction : Type := inbound | outbound.

(** [{ id, customer_phone, direction, body, created_at }]. *)
Record message : Type := Message {
  id : string;
  customer_phone : jsval;
  direction_of : direction;
  body : jsval;
  created_at : string
}.

(* ================================================================== *)
(** ** [Array.prototype.sort] *)

(** Both comparators of the file never answer [0], so the order among ties
    is the engine's.  Node's engine keeps the elements in array order and
    moves a later element [x] in front of an element [e] placed before it
    exactly when [comparefn(x, e)] is negative; [insert] places [x] in front
    of the first such [e] of the already sorted prefix. *)
Section ArraySort.
Variable A : Type.
Variable comparefn : A -> A -> Z.

Fixpoint insert (x : A) (sorted : list A) : list A :=
  match sorted with
  | [] => [x]
  | e :: rest =>
      if (comparefn x e <? 0)%Z then x :: e :: rest
      else e :: insert x rest
  end.

Definition sort (l : list A) : list A :=
  fold_left (fun prefix x => insert x prefix) l [].
End ArraySort.
Arguments insert {A} comparefn x sorted.
Arguments sort {A} comparefn l.

(** [moves comparefn x e]: the sort puts a later [x] in front of [e]. *)
Definition moves {A : Type} (comparefn : A -> A -> Z) (x e : A) : bool :=
  (comparefn x e <? 0)%Z.

(** [before l x y]: some occurrence of [x] in [l] has an occurrence of [y]
    after it. *)
Inductive before {A : Type} : list A -> A -> A -> Prop :=
| before_here (x y : A) (l : list A) : In y l -> before (x :: l) x y
| before_later (e x y : A) (l : list A) : before l x y -> before (e :: l) x y.

(* ================================================================== *)
(** ** [GET /conversations] and [GET /messages] *)

(** [{ customer_phone, last_at }]. *)
Record summary : Type := Summary {
  s_customer_phone : jsval;
  last_at : string
}.

(** A [Map]: keys compared by SameValueZero, iterated in the order in which
    the keys were first set. *)
Definition jsmap : Type := list (jsval * summary).

Fixpoint map_get (k : jsval) (m : jsmap) : option summary :=
  match m with
  | [] => None
  | (k', v) :: rest => if strict_eq k' k then Some v else map_get k rest
  end.

Fixpoint map_set (k : jsval) (v : summary) (m : jsmap) : jsmap :=
  match m with
  | [] => [(k, v)]
  | (k', v') :: rest =>
      if strict_eq k' k then (k', v) :: rest else (k', v') :: map_set k v rest
  end.

Definition map_values (m : jsmap) : list summary := map snd m.

(** One turn of the loop [for (const m of messages)], lines 116-118. *)
Definition conversations_step (map : jsmap) (m : message) : jsmap :=
  let k := customer_phone m in
  match map_get k map with
  | None => map_set k (Summary k (created_at m)) map
  | Some prev =>
      if str_lt (last_at prev) (created_at m)
      then map_set k (Summary k (created_at m)) map
      else map
  end.

Definition conversations_map (messages : list message) : jsmap :=
  fold_left conversations_step messages [].

(** [(a,b) => (a.last_at < b.last_at ? 1 : -1)]. *)
Definition by_last_at_desc (a b : summary) : Z :=
  if str_lt (last_at a) (last_at b) then 1%Z else (-1)%Z.

(** The body of the [GET /conversations] handler, lines 114-120. *)
Definition listConversations (messages : list message) : list summary :=
  sort by_last_at_desc (map_values (conversations_map messages)).

(** [(a,b) => (a.created_at < b.created_at ? -1 : 1)]. *)
Definition by_created_at (a b : message) : Z :=
  if str_lt (created_at a) (created_at b) then (-1)%Z else 1%Z.

(** The body of the [GET /messages] handler, lines 125-126, on the raw
    [req.query.phone]. *)
Definition listMessages (messages : list message) (phone_raw : jsval)
  : list message :=
  let phone := normalizeUS phone_raw in
  sort by_created_at
    (filter (fun m => strict_eq (customer_phone m) phone) messages).

(** Oldest first. *)
Definition oldest_first (x y : message) : Prop :=
  str_le (created_at x) (created_at y).

(** Most recently active first. *)
Definition latest_first (x y : summary) : Prop :=
  str_le (last_at y) (last_at x).

(** What the loop maintains: the map holds one entry per identity seen,
    carrying the latest [created_at] seen for it. *)
Record summarises (m : jsmap) (log : list message) : Prop := {
  keys_distinct : NoDup (map fst m);
  keys_seen : forall msg, In msg log -> map_get (customer_phone msg) m <> None;
  entry_latest : forall k v, map_get k m = Some v ->
    s_customer_phone v = k /\
    (exists msg, In msg log /\ customer_phone msg = k /\
                 created_at msg = last_at v) /\
    (forall msg, In msg log -> customer_phone msg = k ->
                 str_le (created_at msg) (last_at v))
}.

(* ================================================================== *)
(** ** Effects: exceptions, the log and the outside world *)

(** A thrown [Error]: what the [catch] blocks read from it,
    [e.response.data] (absent reads [undefined]) and [e.message]. *)
Record js_error : Type := JsError {
  response_data : jsval;
  err_message : string
}.

Inductive outcome (A : Type) : Type :=
| Returns (a : A)
| Throws (e : js_error).
Arguments Returns {A} a.
Arguments Throws {A} e.

(** [{ to, body, messagingServiceSid }] handed to [messages.create]. *)
Record sms : Type := Sms {
  sms_to : jsval;
  sms_body : jsval;
  messagingServiceSid : string
}.

(** The three [HS.post] calls of [logToHubSpot], by endpoint. *)
Inductive hs_request : Type :=
| ContactsSearch (phone : jsval)
| ContactsCreate (phone : jsval)
| NotesCreate (hs_timestamp : string) (hs_note_body : string)
              (association : option jsval).

(** An axios response: [data] may be missing; within it [results] lists the
    [id] of each hit and [id] is the identifier of a created object. *)
Record hs_data : Type := HsData {
  results : option (list jsval);
  data_id : jsval
}.

Record hs_response : Type := HsResponse { data : option hs_data }.

(** What a run does besides answering: calls to the collaborators and lines
    written with [console.error]. *)
Inductive effect : Type :=
| CarrierCreate (m : sms)
| HubSpotPost (r : hs_request)
| ConsoleError (tag : string) (detail : jsval).

(** The mutable world of a handler: the array [messages] and the effects
    performed so far, oldest first. *)
Record world : Type := World {
  messages : list message;
  trace : list effect
}.

(** Computations that read and write the world and may throw. *)
Definition M (A : Type) : Type := world -> outcome A * world.

Definition ret {A} (a : A) : M A := fun w => (Returns a, w).

Definition bind {A B} (m : M A) (f : A -> M B) : M B :=
  fun w =>
    match m w with
    | (Returns a, w') => f a w'
    | (Throws e, w') => (Throws e, w')
    end.

Notation "x <- m ;; k" := (bind m (fun x => k))
  (at level 61, m at next level, right associativity).
Notation "m ;;; k" := (bind m (fun _ => k))
  (at level 61, right associativity).

(** [try { body } catch (e) { handler }]. *)
Definition try_catch {A} (body : M A) (handler : js_error -> M A) : M A :=
  fun w =>
    match body w with
    | (Returns a, w') => (Returns a, w')
    | (Throws e, w') => handler e w'
    end.

(** A step whose result the environment decides. *)
Definition lift {A} (o : outcome A) : M A := fun w => (o, w).

Definition emit (e : effect) : M unit :=
  fun w => (Returns tt, World (messages w) (trace w ++ [e])).

(** [messages.push(msg)]. *)
Definition push (msg : message) : M unit :=
  fun w => (Returns tt, World (messages w ++ [msg]) (trace w)).

(** [console.error(tag, e?.response?.data || e.message)]. *)
Definition console_error (tag : string) (e : js_error) : M unit :=
  emit (ConsoleError tag (js_or (response_data e) (JStr (err_message e)))).

(** [promise.catch(() => {})] on a call that is not awaited: the call runs,
    whatever it throws is dropped and nothing is handed to the caller. *)
Definition detach (p : M unit) : M unit :=
  try_catch p (fun _ => ret tt).

(** A [TypeError] raised by reading a property of [undefined]. *)
Definition TypeError (msg : string) : js_error := JsError JUndefined msg.

(** An effect that is not a carrier call. *)
Definition crm_effect (e : effect) : Prop :=
  match e with
  | CarrierCreate _ => False
  | HubSpotPost _ | ConsoleError _ _ => True
  end.

(** [only_crm_effects w w']: [w'] has the log of [w] and its effects, then
    only CRM calls and console lines. *)
Definition only_crm_effects (w w' : world) : Prop :=
  messages w' = messages w /\
  exists new, trace w' = (trace w ++ new)%list /\ Forall crm_effect new.

(** A computation that leaves the log alone and only talks to the CRM or
    the console. *)
Definition contained {A : Type} (p : M A) : Prop :=
  forall w, only_crm_effects w (snd (p w)).

(** A computation that always hands back a value. *)
Definition never_throws {A : Type} (p : M A) : Prop :=
  forall w, exists a, fst (p w) = Returns a.

(* ================================================================== *)
(** ** HTTP responses *)

Inductive payload : Type :=
| PError (error : string)                 (* [{ error }] *)
| PConversations (l : list summary)
| PMessages (l : list message)
| PSent (sid : string) (msg : message)    (* [{ ok: true, sid, message }] *)
| PXml (text : string)                    (* [res.type('text/xml').send] *)
| PText (text : string).

Record response : Type := Response {
  status : nat;
  sent : payload
}.

(** What one request carries: the [Authorization] header, [req.query.phone]
    and the parsed body ([None] when no parser filled [req.body]). *)
Record request : Type := Request {
  authorization : option string;
  query_phone : jsval;
  req_body : option (list (string * jsval))
}.

(** Reading a property of a parsed body; a missing one reads [undefined]. *)
Fixpoint field (name : string) (o : list (string * jsval)) : jsval :=
  match o with
  | [] => JUndefined
  | (k, v) :: rest => if (k =? name)%string then v else field name rest
  end.

(** [const { to, body } = req.body || {}]. *)
Definition req_to (req : request) : jsval :=
  field "to" (match req_body req with Some o => o | None => [] end).

Definition req_text (req : request) : jsval :=
  field "body" (match req_body req with Some o => o | None => [] end).

(** The payload of a verified token, stored in [req.user]. *)
Record user : Type := User { sub : string; email : string }.

(** The argument of [logToHubSpot]: [{ from, to, body, ts }]. *)
Record event : Type := Event {
  ev_from : jsval;
  ev_to : jsval;
  ev_body : jsval;
  ev_ts : string
}.

Definition newline : string := String "010"%char EmptyString.

(** [h.slice(7)]. *)
Definition slice7 (h : string) : string :=
  String.substring 7 (String.length h - 7) h.

(* ================================================================== *)
(** ** The server *)

Section Server.
(** [process.env], each entry defaulting to [''] (lines 21-29). *)
Variables TWILIO_ACCOUNT_SID TWILIO_AUTH_TOKEN : string.
Variables TWILIO_MESSAGING_SERVICE_SID HUBSPOT_TOKEN : string.

(** The collaborators, as seen from the handlers:
    [jwt.verify(token, JWT_SECRET)], [twilioClient.messages.create] (of
    whose result only [sid] is read), [HS.post], and the library calls
    behind [id()] and [now()]. *)
Variable jwt_verify : string -> outcome user.
Variable messages_create : sms -> outcome string.
Variable HS_post : hs_request -> outcome hs_response.
Variable randomUUID : outcome string.
Variable toISOString : outcome string.

(** [const id = () => crypto.randomUUID()]. *)
Definition id' : M string := lift randomUUID.

(** [const now = () => dayjs().toISOString()]. *)
Definition now : M string := lift toISOString.

(** [twilioClient], lines 24-26: the client, or [null]. *)
Definition twilioClient : option (sms -> outcome string) :=
  if truthy (JStr TWILIO_ACCOUNT_SID) && truthy (JStr TWILIO_AUTH_TOKEN)
  then Some messages_create else None.

(** The request handed to the carrier for [req]. *)
Definition carrier_request (req : request) : sms :=
  Sms (normalizeUS (req_to req)) (req_text req) TWILIO_MESSAGING_SERVICE_SID.

Definition twilio_configured : bool :=
  truthy (JStr TWILIO_ACCOUNT_SID) && truthy (JStr TWILIO_AUTH_TOKEN)
  && truthy (JStr TWILIO_MESSAGING_SERVICE_SID).

(** *** ActivitySync: [logToHubSpot], lines 55-85 *)

Definition post (r : hs_request) : M hs_response :=
  emit (HubSpotPost r) ;;; lift (HS_post r).

(** [search.data?.results?.[0]?.id]. *)
Definition first_result_id (search : hs_response) : jsval :=
  match data search with
  | None => JUndefined
  | Some d =>
      match results d with
      | Some (hit :: _) => hit
      | _ => JUndefined
      end
  end.

(** [created.data.id]. *)
Definition created_id (created : hs_response) : M jsval :=
  match data created with
  | None =>
      lift (Throws (TypeError
        "Cannot read properties of undefined (reading 'id')"))
  | Some d => ret (data_id d)
  end.

(** The template of [hs_note_body], line 75. *)
Definition note_body (ev : event) : string :=
  "SMS "
  ++ (if truthy (ev_from ev) then "from " ++ to_String (ev_from ev) else "")
  ++ (if truthy (ev_to ev) then " to " ++ to_String (ev_to ev) else "")
  ++ newline ++ newline ++ to_String (ev_body ev).

Definition logToHubSpot (ev : event) : M unit :=
  if negb (truthy (JStr HUBSPOT_TOKEN)) then ret tt
  else
    try_catch
      (let phone := normalizeUS (js_or (ev_from ev) (ev_to ev)) in
       search <- post (ContactsSearch phone) ;;
       contactId <-
         (let found := first_result_id search in
          if negb (truthy found)
          then created <- post (ContactsCreate phone) ;; created_id created
          else ret found) ;;
       post (NotesCreate (ev_ts ev) (note_body ev)
               (if truthy contactId then Some contactId else None)) ;;;
       ret tt)
      (fun e => console_error "HubSpot log error" e).

(** *** AuthGate: [requireAuth], lines 97-107 *)

Definition requireAuth (req : request) (next : user -> M response)
  : M response :=
  let h := match authorization req with Some s => s | None => "" end in
  let token := if startsWith h "Bearer " then Some (slice7 h) else None in
  match token with
  | None => ret (Response 401 (PError "No token"))
  | Some t =>
      if negb (truthy (JStr t)) then ret (Response 401 (PError "No token"))
      else
        match jwt_verify t with
        | Returns u => next u
        | Throws _ => ret (Response 401 (PError "Invalid token"))
        end
  end.

(** *** The routes *)

Definition read_messages : M (list message) :=
  fun w => (Returns (messages w), w).

(** [GET /conversations], lines 113-121. *)
Definition get_conversations (req : request) : M response :=
  requireAuth req (fun _ =>
    log <- read_messages ;;
    ret (Response 200 (PConversations (listConversations log)))).

(** [GET /messages], lines 124-128. *)
Definition get_messages (req : request) : M response :=
  requireAuth req (fun _ =>
    log <- read_messages ;;
    ret (Response 200 (PMessages (listMessages log (query_phone req))))).

(** The handler of [POST /messages], lines 131-155. *)
Definition send_handler (req : request) : M response :=
  try_catch
    (let fields := match req_body req with Some o => o | None => [] end in
     let to := field "to" fields in
     let body := field "body" fields in
     if negb (truthy to) || negb (truthy body)
     then ret (Response 400 (PError "to and body required"))
     else
       match twilioClient with
       | Some create =>
           if negb (truthy (JStr TWILIO_MESSAGING_SERVICE_SID))
           then ret (Response 500 (PError "Twilio not configured"))
           else
             let toNorm := normalizeUS to in
             let request := Sms toNorm body TWILIO_MESSAGING_SERVICE_SID in
             emit (CarrierCreate request) ;;;
             sid <- lift (create request) ;;
             i <- id' ;;
             t <- now ;;
             let msg := Message i toNorm outbound body t in
             push msg ;;;
             detach (logToHubSpot (Event JNull toNorm body (created_at msg))) ;;;
             ret (Response 200 (PSent sid msg))
       | None => ret (Response 500 (PError "Twilio not configured"))
       end)
    (fun e =>
       console_error "Send error" e ;;;
       ret (Response 500 (PError "Send failed"))).

Definition post_messages (req : request) : M response :=
  requireAuth req (fun _ => send_handler req).

(** The [catch] block of the webhook, lines 170-173. *)
Definition webhook_catch (e : js_error) : M response :=
  console_error "Webhook error" e ;;;
  ret (Response 200 (PXml "<Response/>")).

(** [POST /webhooks/twilio-sms], lines 158-174. *)
Definition post_webhooks_twilio_sms (req : request) : M response :=
  try_catch
    (fields <-
       match req_body req with
       | Some o => ret o
       | None =>
           lift (Throws (TypeError
             "Cannot read properties of undefined (reading 'From')"))
       end ;;
     let from := normalizeUS (field "From" fields) in
     let body := js_or (field "Body" fields) (JStr "") in
     i <- id' ;;
     t <- now ;;
     let msg := Message i from inbound body t in
     push msg ;;;
     detach (logToHubSpot (Event from JNull body (created_at msg))) ;;;
     ret (Response 200 (PXml "<Response/>")))
    webhook_catch.
End Server.

(* ================================================================== *)
(** ** [POST /auth/login] *)

(** One entry of the array [users], lines 37-40. *)
Record account : Type := Account {
  account_id : string;
  account_email : string;
  account_password : string;
  twilio_number : jsval
}.

(** The array as the file declares it: the demo user. *)
Definition demo_users : list account :=
  [Account "u1" "rep@example.com" "password" JNull].

(** [users.find(x => x.email === email)]. *)
Fixpoint find_by_email (email : jsval) (users : list account)
  : option account :=
  match users with
  | [] => None
  | x :: rest =>
      if strict_eq (JStr (account_email x)) email then Some x
      else find_by_email email rest
  end.

(** What the login route sends: [{ error }] or
    [{ token, user: { id, email } }]. *)
Inductive login_payload : Type :=
| LoginError (error : string)
| LoginOk (token : string) (uid uemail : string).

Record login_response : Type := LoginResponse {
  login_status : nat;
  login_sent : login_payload
}.

(** [const { email, password } = req.body || {}]. *)
Definition req_email (req : request) : jsval :=
  field "email" (match req_body req with Some o => o | None => [] end).

Definition req_password (req : request) : jsval :=
  field "password" (match req_body req with Some o => o | None => [] end).

Section Login.
(** The array [users], and [jwt.sign(payload, JWT_SECRET, { expiresIn })]
    as a function of the payload [{ sub, email }]. *)
Variable users : list account.
Variable jwt_sign : user -> outcome string.

(** [POST /auth/login], lines 88-94.  The handler has no [try]: what
    [jwt.sign] throws leaves the handler. *)
Definition post_auth_login (req : request) : M login_response :=
  let fields := match req_body req with Some o => o | None => [] end in
  let email := field "email" fields in
  let password := field "password" fields in
  match find_by_email email users with
  | None => ret (LoginResponse 401 (LoginError "Invalid credentials"))
  | Some u =>
      if negb (strict_eq password (JStr (account_password u)))
      then ret (LoginResponse 401 (LoginError "Invalid credentials"))
      else
        token <- lift (jwt_sign (User (account_id u) (account_email u))) ;;
        ret (LoginResponse 200
               (LoginOk token (account_id u) (account_email u)))
  end.
End Login.

(* ================================================================== *)
(** ** What the log and the effects of a run look like *)

(** Every stored identity is a value that [normalizeUS] leaves alone. *)
Definition normalised_log (log : list message) : Prop :=
  Forall (fun m => normalizeUS (customer_phone m) = customer_phone m) log.


(** The carrier calls among some effects. *)
Fixpoint carrier_calls (effects : list effect) : list sms :=
  match effects with
  | [] => []
  | CarrierCreate m :: rest => m :: carrier_calls rest
  | _ :: rest => carrier_calls rest
  end.

(** The CRM calls among some effects, in order. *)
Fixpoint crm_calls (effects : list effect) : list hs_request :=
  match effects with
  | [] => []
  | HubSpotPost r :: rest => r :: crm_calls rest
  | _ :: rest => crm_calls rest
  end.

(* ================================================================== *)
(** * Properties *)

(** ** Strings and digits *)

Lemma length_append (a b : string) :
  String.length (a ++ b) = String.length a + String.length b.
Proof. induction a as [|c a IH]; simpl; [reflexivity | now rewrite IH]. Qed.

Lemma strip_non_digits_app (a b : string) :
  strip_non_digits (a ++ b) = strip_non_digits a ++ strip_non_digits b.
Proof.
  induction a as [|c a IH]; simpl; [reflexivity|].
  destruct (is_digit c); simpl; now rewrite IH.
Qed.

(** What [replace] leaves is empty or begins with a digit. *)
Lemma strip_non_digits_head (s : string) :
  strip_non_digits s = "" \/
  exists c rest, strip_non_digits s = String c rest /\ is_digit c = true.
Proof.
  induction s as [|c s IH]; simpl; [now left|].
  destruct (is_digit c) eqn:Hc; [right; eauto | exact IH].
Qed.

Lemma strip_non_digits_idem (s : string) :
  strip_non_digits (strip_non_digits s) = strip_non_digits s.
Proof.
  induction s as [|c s IH]; simpl; [reflexivity|].
  destruct (is_digit c) eqn:Hc; simpl; [rewrite Hc, IH; reflexivity | exact IH].
Qed.

(** The test of line 50 never succeeds: a digit string has no ['+']. *)
Lemma digits_never_start_with_plus (s : string) :
  startsWith (strip_non_digits s) "+" = false.
Proof.
  unfold startsWith.
  destruct (strip_non_digits_head s) as [-> | (c & rest & -> & Hc)];
    [reflexivity|].
  cbn [prefix]. destruct (ascii_dec "+" c) as [<- | _];
    [discriminate Hc | reflexivity].
Qed.

(** On a truthy input the four branches of [normalizeUS] collapse to two. *)
Lemma normalizeUS_truthy (p : jsval) :
  truthy p = true ->
  normalizeUS p =
    JStr (country_prefix (strip_non_digits (to_String p))
          ++ strip_non_digits (to_String p)).
Proof.
  intros Hp. unfold normalizeUS, country_prefix. rewrite Hp. cbn [negb].
  cbv zeta. rewrite digits_never_start_with_plus.
  destruct (String.length _ =? 10)%nat; [reflexivity|].
  destruct (startsWith _ "1" && _); reflexivity.
Qed.

Lemma normalizeUS_falsy (p : jsval) : truthy p = false -> normalizeUS p = p.
Proof. intros Hp. unfold normalizeUS. now rewrite Hp. Qed.

(** The results on truthy inputs are fixed points. *)
Lemma normalizeUS_truthy_fixed (p : jsval) :
  truthy p = true -> normalizeUS (normalizeUS p) = normalizeUS p.
Proof.
  intros Hp. rewrite (normalizeUS_truthy p Hp).
  set (d := strip_non_digits (to_String p)).
  assert (Ht : truthy (JStr (country_prefix d ++ d)) = true)
    by (unfold country_prefix; destruct (_ =? 10)%nat; reflexivity).
  rewrite (normalizeUS_truthy _ Ht). cbn [to_String].
  rewrite strip_non_digits_app. subst d. rewrite strip_non_digits_idem.
  set (d := strip_non_digits (to_String p)).
  unfold country_prefix at 2 4.
  destruct (String.length d =? 10)%nat eqn:Hlen.
  - change (strip_non_digits "+1") with "1".
    unfold country_prefix. rewrite length_append.
    apply Nat.eqb_eq in Hlen. rewrite Hlen. reflexivity.
  - change (strip_non_digits "+") with "". cbn [append].
    unfold country_prefix. rewrite Hlen. reflexivity.
Qed.

(** ** The order of timestamps *)

Lemma compare_as_OT (a b : string) : String.compare a b = String_as_OT.compare a b.
Proof.
  revert b; induction a as [|x a IH]; intros [|y b]; reflexivity.
Qed.

Lemma str_lt_iff (a b : string) : str_lt a b = true <-> String_as_OT.lt a b.
Proof.
  unfold str_lt, String.ltb, String_as_OT.lt. rewrite compare_as_OT.
  destruct (String_as_OT.compare a b); split; congruence.
Qed.

Lemma str_lt_irrefl (a : string) : str_lt a a = false.
Proof.
  destruct (str_lt a a) eqn:H; [|reflexivity].
  apply str_lt_iff in H. now apply (StrictOrder_Irreflexive a) in H.
Qed.

Lemma str_lt_trans (a b c : string) :
  str_lt a b = true -> str_lt b c = true -> str_lt a c = true.
Proof.
  rewrite !str_lt_iff. apply (@StrictOrder_Transitive _ _ String_as_OT.lt_strorder).
Qed.

Lemma str_lt_asym (a b : string) : str_lt a b = true -> str_lt b a = false.
Proof.
  intros H. destruct (str_lt b a) eqn:H'; [|reflexivity].
  pose proof (str_lt_trans _ _ _ H H') as Haa.
  now rewrite str_lt_irrefl in Haa.
Qed.

Lemma str_lt_total (a b : string) :
  str_lt a b = true \/ a = b \/ str_lt b a = true.
Proof.
  rewrite !str_lt_iff.
  destruct (String_as_OT.compare_spec a b) as [H|H|H]; auto.
Qed.

Lemma str_le_refl (a : string) : str_le a a.
Proof. apply str_lt_irrefl. Qed.

Lemma str_lt_le_trans (a b c : string) :
  str_lt a b = true -> str_le b c -> str_lt a c = true.
Proof.
  unfold str_le. intros Hab Hbc.
  destruct (str_lt_total b c) as [H | [<- | H]];
    [eapply str_lt_trans; eassumption | assumption | congruence].
Qed.

Lemma str_le_lt_trans (a b c : string) :
  str_le a b -> str_lt b c = true -> str_lt a c = true.
Proof.
  unfold str_le. intros Hab Hbc.
  destruct (str_lt_total a b) as [H | [-> | H]];
    [eapply str_lt_trans; eassumption | assumption | congruence].
Qed.

Lemma str_le_trans (a b c : string) : str_le a b -> str_le b c -> str_le a c.
Proof.
  intros Hab Hbc. unfold str_le.
  destruct (str_lt c a) eqn:Hca; [|reflexivity].
  pose proof (str_lt_le_trans _ _ _ Hca Hab) as Hcb.
  unfold str_le in Hbc. congruence.
Qed.

Lemma str_lt_le (a b : string) : str_lt a b = true -> str_le a b.
Proof. apply str_lt_asym. Qed.

(** ** Positions in an array *)

Lemma before_split {A : Type} (l : list A) (x y : A) :
  before l x y <-> exists a b c, l = (a ++ x :: b ++ y :: c)%list.
Proof.
  split.
  - induction 1 as [x y l Hin | e x y l _ (a & b & c & ->)].
    + apply in_split in Hin as (b & c & ->). now exists [], b, c.
    + now exists (e :: a), b, c.
  - intros (a & b & c & ->). induction a as [|e a IH]; cbn.
    + apply before_here, in_or_app. right. now left.
    + now apply before_later.
Qed.

Lemma before_filter {A : Type} (f : A -> bool) (l : list A) (x y : A) :
  before l x y -> f x = true -> f y = true -> before (filter f l) x y.
Proof.
  intros H Hx Hy. induction H as [x y l Hin | e x y l _ IH]; cbn.
  - rewrite Hx. apply before_here, filter_In. auto.
  - destruct (f e); [apply before_later|]; auto.
Qed.

(** ** The sort *)

Section SortFacts.
Variable A : Type.
Variable comparefn : A -> A -> Z.

Lemma insert_In (x u : A) (l : list A) :
  In u (insert comparefn x l) <-> u = x \/ In u l.
Proof.
  induction l as [|e l IH]; cbn; [intuition congruence|].
  destruct (comparefn x e <? 0)%Z; cbn; [intuition congruence|].
  rewrite IH. intuition congruence.
Qed.

Lemma insert_perm (x : A) (l : list A) :
  Permutation (insert comparefn x l) (x :: l).
Proof.
  induction l as [|e l IH]; cbn; [reflexivity|].
  destruct (comparefn x e <? 0)%Z; [reflexivity|].
  rewrite IH. apply perm_swap.
Qed.

Lemma fold_insert_perm (l prefix : list A) :
  Permutation (fold_left (fun p x => insert comparefn x p) l prefix)
              (prefix ++ l)%list.
Proof.
  revert prefix; induction l as [|x l IH]; intros prefix; cbn.
  - now rewrite app_nil_r.
  - rewrite IH, insert_perm. now apply Permutation_middle.
Qed.

Lemma sort_perm (l : list A) : Permutation (sort comparefn l) l.
Proof. apply (fold_insert_perm l []). Qed.

Lemma insert_before (x y z : A) (l : list A) :
  before l x y -> before (insert comparefn z l) x y.
Proof.
  induction 1 as [x y l Hin | e x y l H IH]; cbn;
    destruct (comparefn z _ <? 0)%Z.
  - now apply before_later, before_here.
  - apply before_here, insert_In. now right.
  - now apply before_later, before_later.
  - now apply before_later.
Qed.

Lemma fold_insert_before (l prefix : list A) (x y : A) :
  before prefix x y ->
  before (fold_left (fun p u => insert comparefn u p) l prefix) x y.
Proof.
  revert prefix; induction l as [|u l IH]; intros prefix H; cbn;
    [assumption | now apply IH, insert_before].
Qed.

(** [R x y]: the comparator lets [x] stand in front of [y]. *)
Variable R : A -> A -> Prop.
Hypothesis R_trans : forall x y z, R x y -> R y z -> R x z.
Hypothesis moved : forall x e, moves comparefn x e = true -> R x e.
Hypothesis kept : forall x e, moves comparefn x e = false -> R e x.
Hypothesis moved_past :
  forall x e y, moves comparefn x e = true -> R e y -> moves comparefn x y = true.

Lemma insert_sorted (x : A) (l : list A) :
  StronglySorted R l -> StronglySorted R (insert comparefn x l).
Proof.
  induction 1 as [|e l Hs IH Hall]; cbn.
  - repeat constructor.
  - destruct (comparefn x e <? 0)%Z eqn:Hm.
    + constructor; [now constructor|]. constructor; [now apply moved|].
      eapply Forall_impl; [|exact Hall]. intros y Hy.
      eapply R_trans; [apply moved; exact Hm | exact Hy].
    + constructor; [exact IH|]. apply Forall_forall. intros y Hy.
      apply insert_In in Hy as [-> | Hy]; [now apply kept|].
      rewrite Forall_forall in Hall. auto.
Qed.

Lemma fold_insert_sorted (l prefix : list A) :
  StronglySorted R prefix ->
  StronglySorted R (fold_left (fun p x => insert comparefn x p) l prefix).
Proof.
  revert prefix; induction l as [|x l IH]; intros prefix H; cbn;
    [assumption | now apply IH, insert_sorted].
Qed.

Lemma sort_sorted (l : list A) : StronglySorted R (sort comparefn l).
Proof. apply fold_insert_sorted. constructor. Qed.

(** A later element that the comparator does not move in front of [x]
    lands behind [x]. *)
Lemma insert_after (x y : A) (l : list A) :
  StronglySorted R l -> In x l -> moves comparefn y x = false ->
  before (insert comparefn y l) x y.
Proof.
  intros Hs Hin Hyx. induction Hs as [|e l Hs IH Hall]; [contradiction|].
  cbn. destruct (comparefn y e <? 0)%Z eqn:Hm.
  - exfalso. destruct Hin as [-> | Hin]; [unfold moves in Hyx; congruence|].
    rewrite Forall_forall in Hall.
    pose proof (moved_past y e x Hm (Hall x Hin)) as Hc. congruence.
  - destruct Hin as [-> | Hin].
    + apply before_here, insert_In. now left.
    + now apply before_later, IH.
Qed.

Lemma sort_stable (l : list A) (x y : A) :
  before l x y -> moves comparefn y x = false -> before (sort comparefn l) x y.
Proof.
  intros H Hyx. unfold sort.
  assert (G : forall prefix, StronglySorted R prefix ->
    before (fold_left (fun p u => insert comparefn u p) l prefix) x y).
  { induction H as [x y l Hin | e x y l H IH]; intros prefix Hp; cbn.
    - apply in_split in Hin as (b & c & ->).
      rewrite fold_left_app. cbn.
      apply fold_insert_before, insert_after; auto.
      + now apply fold_insert_sorted, insert_sorted.
      + eapply Permutation_in;
          [symmetry; apply fold_insert_perm|].
        apply in_or_app. left. apply insert_In. now left.
    - apply IH; [assumption | now apply insert_sorted]. }
  apply G. constructor.
Qed.
End SortFacts.

(** ** The two comparators *)

Lemma by_created_at_moves (x e : message) :
  moves by_created_at x e = str_lt (created_at x) (created_at e).
Proof. unfold moves, by_created_at. now destruct (str_lt _ _). Qed.

Lemma by_last_at_desc_moves (x e : summary) :
  moves by_last_at_desc x e = negb (str_lt (last_at x) (last_at e)).
Proof. unfold moves, by_last_at_desc. now destruct (str_lt _ _). Qed.

Lemma sort_by_created_at_sorted (l : list message) :
  StronglySorted oldest_first (sort by_created_at l).
Proof.
  apply sort_sorted; unfold oldest_first.
  - intros x y z. apply str_le_trans.
  - intros x e. rewrite by_created_at_moves. apply str_lt_le.
  - intros x e. rewrite by_created_at_moves. trivial.
Qed.

Lemma sort_by_created_at_stable (l : list message) (x y : message) :
  before l x y -> oldest_first x y -> before (sort by_created_at l) x y.
Proof.
  intros H Hxy. apply (sort_stable _ by_created_at oldest_first);
    unfold oldest_first in *; auto.
  - intros a b c. apply str_le_trans.
  - intros a e. rewrite by_created_at_moves. apply str_lt_le.
  - intros a e. rewrite by_created_at_moves. trivial.
  - intros a e b. rewrite !by_created_at_moves. apply str_lt_le_trans.
  - now rewrite by_created_at_moves.
Qed.

Lemma sort_by_last_at_desc_sorted (l : list summary) :
  StronglySorted latest_first (sort by_last_at_desc l).
Proof.
  apply sort_sorted; unfold latest_first.
  - intros x y z Hxy Hyz. eapply str_le_trans; eassumption.
  - intros x e. rewrite by_last_at_desc_moves, negb_true_iff. trivial.
  - intros x e. rewrite by_last_at_desc_moves, negb_false_iff. apply str_lt_le.
Qed.

Lemma strict_eq_true (a b : jsval) : strict_eq a b = true <-> a = b.
Proof. unfold strict_eq. destruct (jsval_eq_dec a b); split; congruence. Qed.

Lemma strict_eq_refl (a : jsval) : strict_eq a a = true.
Proof. now apply strict_eq_true. Qed.

Lemma listMessages_before (log : list message) (raw : jsval) (m1 m2 : message) :
  before log m1 m2 ->
  customer_phone m1 = normalizeUS raw ->
  customer_phone m2 = normalizeUS raw ->
  oldest_first m1 m2 ->
  before (listMessages log raw) m1 m2.
Proof.
  intros H H1 H2 Ht. unfold listMessages.
  apply sort_by_created_at_stable; [|assumption].
  apply before_filter; [assumption | |]; now apply strict_eq_true.
Qed.

(** ** The [Map] of [GET /conversations] *)

Lemma map_get_set_same (k : jsval) (v : summary) (m : jsmap) :
  map_get k (map_set k v m) = Some v.
Proof.
  induction m as [|[k' v'] m IH]; cbn.
  - now rewrite strict_eq_refl.
  - destruct (strict_eq k' k) eqn:E; cbn; now rewrite E.
Qed.

Lemma map_get_set_other (k k' : jsval) (v : summary) (m : jsmap) :
  k' <> k -> map_get k' (map_set k v m) = map_get k' m.
Proof.
  intros Hne. induction m as [|[k0 v0] m IH]; cbn.
  - destruct (strict_eq k k') eqn:E; [|reflexivity].
    apply strict_eq_true in E. congruence.
  - destruct (strict_eq k0 k) eqn:E; cbn; [|now rewrite IH].
    apply strict_eq_true in E. subst k0.
    destruct (strict_eq k k') eqn:E'; [|reflexivity].
    apply strict_eq_true in E'. congruence.
Qed.

Lemma map_get_None (k : jsval) (m : jsmap) :
  map_get k m = None <-> ~ In k (map fst m).
Proof.
  induction m as [|[k' v'] m IH]; cbn; [tauto|].
  destruct (strict_eq k' k) eqn:E.
  - apply strict_eq_true in E. split; [discriminate | tauto].
  - rewrite IH. split; [|tauto]. intros H [H'|H']; [|tauto].
    apply strict_eq_true in H'. congruence.
Qed.

Lemma map_get_In (k : jsval) (v : summary) (m : jsmap) :
  NoDup (map fst m) -> In (k, v) m -> map_get k m = Some v.
Proof.
  induction m as [|[k' v'] m IH]; cbn; [contradiction|].
  intros Hnd [Heq | Hin]; inversion Hnd as [|? ? Hnotin Hnd']; subst.
  - injection Heq as -> ->. now rewrite strict_eq_refl.
  - destruct (strict_eq k' k) eqn:E; [|now apply IH].
    apply strict_eq_true in E. subst k'. exfalso. apply Hnotin.
    now apply (in_map fst) in Hin.
Qed.

Lemma map_set_keys (k x : jsval) (v : summary) (m : jsmap) :
  In x (map fst (map_set k v m)) -> x = k \/ In x (map fst m).
Proof.
  induction m as [|[k' v'] m IH]; cbn; [intuition congruence|].
  destruct (strict_eq k' k); cbn; intuition.
Qed.

Lemma map_set_NoDup (k : jsval) (v : summary) (m : jsmap) :
  NoDup (map fst m) -> NoDup (map fst (map_set k v m)).
Proof.
  induction m as [|[k' v'] m IH]; cbn; intros Hnd.
  - repeat constructor. intros [].
  - inversion Hnd as [|? ? Hnotin Hnd']; subst.
    destruct (strict_eq k' k) eqn:E; cbn; constructor; auto.
    intros Hin. apply map_set_keys in Hin as [-> | Hin]; [|contradiction].
    now rewrite strict_eq_refl in E.
Qed.

Lemma summarises_nil : summarises [] [].
Proof. split; cbn; [constructor | contradiction | discriminate]. Qed.

Lemma summarises_set (m : jsmap) (log : list message) (x : message) :
  summarises m log ->
  (forall prev, map_get (customer_phone x) m = Some prev ->
                str_lt (last_at prev) (created_at x) = true) ->
  summarises
    (map_set (customer_phone x) (Summary (customer_phone x) (created_at x)) m)
    (log ++ [x])%list.
Proof.
  intros [Hnd Hseen Hlatest] Hprev. split.
  - now apply map_set_NoDup.
  - intros msg Hin.
    destruct (jsval_eq_dec (customer_phone msg) (customer_phone x)) as [->|Hne].
    + now rewrite map_get_set_same.
    + rewrite map_get_set_other by assumption.
      apply in_app_or in Hin as [Hin | [<- | []]]; [auto | congruence].
  - intros k v Hget.
    destruct (jsval_eq_dec k (customer_phone x)) as [->|Hne].
    + rewrite map_get_set_same in Hget. injection Hget as <-. cbn.
      split; [reflexivity|]. split.
      * exists x. split; [apply in_or_app; right; now left | auto].
      * intros msg Hin Hk.
        apply in_app_or in Hin as [Hin | [<- | []]]; [|apply str_le_refl].
        destruct (map_get (customer_phone x) m) as [prev|] eqn:Hg.
        -- destruct (Hlatest _ _ Hg) as (_ & _ & Hmax).
           apply str_lt_le. eapply str_le_lt_trans; [apply Hmax; eauto|].
           now apply Hprev.
        -- exfalso. apply (Hseen msg Hin). now rewrite Hk.
    + rewrite map_get_set_other in Hget by assumption.
      destruct (Hlatest _ _ Hget) as (Hk & (msg & Hin & Hm) & Hmax).
      split; [assumption|]. split.
      * exists msg. split; [apply in_or_app; now left | assumption].
      * intros msg' Hin' Hk'.
        apply in_app_or in Hin' as [Hin' | [<- | []]]; [auto | congruence].
Qed.

Lemma summarises_keep (m : jsmap) (log : list message) (x : message)
      (prev : summary) :
  summarises m log ->
  map_get (customer_phone x) m = Some prev ->
  str_lt (last_at prev) (created_at x) = false ->
  summarises m (log ++ [x])%list.
Proof.
  intros [Hnd Hseen Hlatest] Hg Hle. split.
  - assumption.
  - intros msg Hin.
    apply in_app_or in Hin as [Hin | [<- | []]]; [auto | congruence].
  - intros k v Hget.
    destruct (Hlatest _ _ Hget) as (Hk & (msg & Hin & Hm) & Hmax).
    split; [assumption|]. split.
    + exists msg. split; [apply in_or_app; now left | assumption].
    + intros msg' Hin' Hk'.
      apply in_app_or in Hin' as [Hin' | [<- | []]]; [auto|].
      rewrite Hk' in Hg. rewrite Hg in Hget. injection Hget as <-. exact Hle.
Qed.

Lemma conversations_step_summarises (m : jsmap) (log : list message)
      (x : message) :
  summarises m log -> summarises (conversations_step m x) (log ++ [x])%list.
Proof.
  intros H. unfold conversations_step.
  destruct (map_get (customer_phone x) m) as [prev|] eqn:Hg.
  - destruct (str_lt (last_at prev) (created_at x)) eqn:Hlt.
    + apply summarises_set; [assumption|]. intros p Hp. congruence.
    + eapply summarises_keep; eassumption.
  - apply summarises_set; [assumption|]. intros p Hp. congruence.
Qed.

Lemma conversations_map_summarises (log : list message) :
  summarises (conversations_map log) log.
Proof.
  unfold conversations_map.
  induction log as [|x log IH] using rev_ind; [apply summarises_nil|].
  rewrite fold_left_app. cbn. now apply conversations_step_summarises.
Qed.

(** ** ActivitySync *)

Lemma only_crm_effects_refl (w : world) : only_crm_effects w w.
Proof. split; [reflexivity|]. exists []. now rewrite app_nil_r. Qed.

Lemma only_crm_effects_trans (w1 w2 w3 : world) :
  only_crm_effects w1 w2 -> only_crm_effects w2 w3 -> only_crm_effects w1 w3.
Proof.
  intros (Hm & n1 & Ht & Hn1) (Hm' & n2 & Ht' & Hn2). split; [congruence|].
  exists (n1 ++ n2)%list. rewrite Ht', Ht, app_assoc.
  split; [reflexivity | now apply Forall_app].
Qed.

Lemma contained_ret {A : Type} (a : A) : contained (ret a).
Proof. intros w. apply only_crm_effects_refl. Qed.

Lemma contained_lift {A : Type} (o : outcome A) : contained (lift o).
Proof. intros w. apply only_crm_effects_refl. Qed.

Lemma contained_emit (e : effect) : crm_effect e -> contained (emit e).
Proof.
  intros He w. split; [reflexivity|]. exists [e]. split; [reflexivity|].
  now constructor.
Qed.

Lemma contained_bind {A B : Type} (p : M A) (f : A -> M B) :
  contained p -> (forall a, contained (f a)) -> contained (bind p f).
Proof.
  intros Hp Hf w. unfold bind. specialize (Hp w).
  destruct (p w) as [[a|e] w']; cbn in *; [|assumption].
  eapply only_crm_effects_trans; [exact Hp | apply Hf].
Qed.

Lemma contained_try_catch {A : Type} (p : M A) (h : js_error -> M A) :
  contained p -> (forall e, contained (h e)) -> contained (try_catch p h).
Proof.
  intros Hp Hh w. unfold try_catch. specialize (Hp w).
  destruct (p w) as [[a|e] w']; cbn in *; [assumption|].
  eapply only_crm_effects_trans; [exact Hp | apply Hh].
Qed.

Lemma never_throws_ret {A : Type} (a : A) : never_throws (ret a).
Proof. intros w. now exists a. Qed.

Lemma never_throws_emit (e : effect) : never_throws (emit e).
Proof. intros w. now exists tt. Qed.

Lemma never_throws_try_catch {A : Type} (p : M A) (h : js_error -> M A) :
  (forall e, never_throws (h e)) -> never_throws (try_catch p h).
Proof.
  intros Hh w. unfold try_catch.
  destruct (p w) as [[a|e] w']; [now exists a | apply Hh].
Qed.

Lemma contained_logToHubSpot (HUBSPOT_TOKEN : string)
      (HS_post : hs_request -> outcome hs_response) (ev : event) :
  contained (logToHubSpot HUBSPOT_TOKEN HS_post ev).
Proof.
  unfold logToHubSpot, post, console_error, created_id.
  destruct (negb (truthy (JStr HUBSPOT_TOKEN))); [apply contained_ret|].
  apply contained_try_catch; [|intros e; now apply contained_emit].
  repeat first
    [ apply contained_ret | apply contained_lift
    | apply contained_emit; exact I
    | apply contained_bind; [|intros ?]
    | match goal with |- contained (if ?c then _ else _) => destruct c end
    | match goal with |- contained (match ?c with _ => _ end) => destruct c end ].
Qed.

Lemma never_throws_logToHubSpot (HUBSPOT_TOKEN : string)
      (HS_post : hs_request -> outcome hs_response) (ev : event) :
  never_throws (logToHubSpot HUBSPOT_TOKEN HS_post ev).
Proof.
  unfold logToHubSpot, console_error.
  destruct (negb (truthy (JStr HUBSPOT_TOKEN))); [apply never_throws_ret|].
  apply never_throws_try_catch. intros e. apply never_throws_emit.
Qed.

Lemma detach_returns (p : M unit) (w : world) : fst (detach p w) = Returns tt.
Proof.
  unfold detach, try_catch. destruct (p w) as [[[]|e] w']; reflexivity.
Qed.

Lemma contained_detach (p : M unit) : contained p -> contained (detach p).
Proof.
  intros Hp. apply contained_try_catch; [assumption|].
  intros e. apply contained_ret.
Qed.

(** ** AuthGate *)

Lemma slice7_bearer (t : string) : slice7 ("Bearer " ++ t) = t.
Proof.
  unfold slice7. cbn. rewrite Nat.sub_0_r.
  induction t as [|c t IH]; cbn; [reflexivity | now rewrite IH].
Qed.

Lemma requireAuth_cases (jwt_verify : string -> outcome user) (req : request)
      (next : user -> M response) (w : world) :
  requireAuth jwt_verify req next w
    = (Returns (Response 401 (PError "No token")), w) \/
  requireAuth jwt_verify req next w
    = (Returns (Response 401 (PError "Invalid token")), w) \/
  exists u, requireAuth jwt_verify req next w = next u w.
Proof.
  unfold requireAuth.
  destruct (startsWith _ "Bearer "); [|now left].
  destruct (negb (truthy (JStr _))); [now left|].
  destruct (jwt_verify _) as [u|e]; [right; right; now exists u | right; now left].
Qed.

(** ** The send path *)

Section SendFacts.
Variables TWILIO_ACCOUNT_SID TWILIO_AUTH_TOKEN : string.
Variables TWILIO_MESSAGING_SERVICE_SID HUBSPOT_TOKEN : string.
Variable messages_create : sms -> outcome string.
Variable HS_post : hs_request -> outcome hs_response.
Variable randomUUID : outcome string.
Variable toISOString : outcome string.

Local Abbreviation carrier_request :=
  (carrier_request TWILIO_MESSAGING_SERVICE_SID).
Local Abbreviation twilio_configured :=
  (twilio_configured TWILIO_ACCOUNT_SID TWILIO_AUTH_TOKEN
     TWILIO_MESSAGING_SERVICE_SID).
Local Abbreviation send :=
  (send_handler TWILIO_ACCOUNT_SID TWILIO_AUTH_TOKEN
     TWILIO_MESSAGING_SERVICE_SID HUBSPOT_TOKEN messages_create HS_post
     randomUUID toISOString).

Lemma send_invalid (req : request) (w : world) :
  truthy (req_to req) = false \/ truthy (req_text req) = false ->
  send req w = (Returns (Response 400 (PError "to and body required")), w).
Proof.
  intros H. unfold send_handler, try_catch. fold (req_to req) (req_text req).
  replace (negb (truthy (req_to req)) || negb (truthy (req_text req)))
    with true; [reflexivity|].
  destruct H as [-> | ->]; [reflexivity | now rewrite orb_true_r].
Qed.

Lemma send_not_configured (req : request) (w : world) :
  truthy (req_to req) = true -> truthy (req_text req) = true ->
  twilio_configured = false ->
  send req w = (Returns (Response 500 (PError "Twilio not configured")), w).
Proof.
  intros Hto Hbody Hcfg. unfold send_handler, try_catch, twilioClient.
  fold (req_to req) (req_text req). rewrite Hto, Hbody. cbn [negb orb].
  unfold twilio_configured in Hcfg.
  destruct (truthy (JStr TWILIO_ACCOUNT_SID) && truthy (JStr TWILIO_AUTH_TOKEN));
    [|reflexivity].
  cbn in Hcfg. unfold truthy. rewrite Hcfg. reflexivity.
Qed.

Lemma send_carrier_fails (req : request) (w : world) (e : js_error) :
  truthy (req_to req) = true -> truthy (req_text req) = true ->
  twilio_configured = true ->
  messages_create (carrier_request req) = Throws e ->
  send req w =
    (Returns (Response 500 (PError "Send failed")),
     World (messages w)
       (trace w ++ [CarrierCreate (carrier_request req);
                    ConsoleError "Send error"
                      (js_or (response_data e) (JStr (err_message e)))])).
Proof.
  intros Hto Hbody Hcfg Hfail. unfold send_handler, try_catch, twilioClient.
  fold (req_to req) (req_text req). rewrite Hto, Hbody. cbn [negb orb].
  unfold twilio_configured in Hcfg.
  apply andb_true_iff in Hcfg as [Hcfg Hsid]. rewrite Hcfg.
  unfold truthy at 1. unfold truthy in Hsid. rewrite Hsid. cbn [negb].
  fold (carrier_request req).
  unfold bind, emit, lift, console_error, ret. rewrite Hfail. cbn.
  now rewrite <- app_assoc.
Qed.

(** What the handler does once validation and configuration have passed. *)
Lemma send_committed (req : request) (w : world) :
  truthy (req_to req) = true -> truthy (req_text req) = true ->
  twilio_configured = true ->
  send req w =
    try_catch
      (emit (CarrierCreate (carrier_request req)) ;;;
       sid <- lift (messages_create (carrier_request req)) ;;
       i <- id' randomUUID ;;
       t <- now toISOString ;;
       let msg := Message i (normalizeUS (req_to req)) outbound (req_text req) t in
       push msg ;;;
       detach (logToHubSpot HUBSPOT_TOKEN HS_post
                 (Event JNull (normalizeUS (req_to req)) (req_text req)
                    (created_at msg))) ;;;
       ret (Response 200 (PSent sid msg)))
      (fun e =>
         console_error "Send error" e ;;;
         ret (Response 500 (PError "Send failed"))) w.
Proof.
  intros Hto Hbody Hcfg. unfold send_handler, twilioClient.
  fold (req_to req) (req_text req). unfold try_catch.
  rewrite Hto, Hbody. cbn [negb orb].
  unfold twilio_configured in Hcfg.
  apply andb_true_iff in Hcfg as [Hcfg Hsid]. rewrite Hcfg.
  unfold truthy at 1. unfold truthy in Hsid. rewrite Hsid. reflexivity.
Qed.

Lemma send_accepted (req : request) (w : world) (sid i t : string) :
  truthy (req_to req) = true -> truthy (req_text req) = true ->
  twilio_configured = true ->
  messages_create (carrier_request req) = Returns sid ->
  randomUUID = Returns i -> toISOString = Returns t ->
  let msg := Message i (normalizeUS (req_to req)) outbound (req_text req) t in
  fst (send req w) = Returns (Response 200 (PSent sid msg)) /\
  messages (snd (send req w)) = (messages w ++ [msg])%list.
Proof.
  intros Hto Hbody Hcfg Hok Hid Hnow msg.
  rewrite (send_committed req w Hto Hbody Hcfg).
  unfold try_catch, bind, emit, id', now, push, ret. unfold lift.
  rewrite Hok, Hid, Hnow. cbn [messages trace created_at]. fold msg.
  match goal with |- context [detach ?p ?w0] =>
    pose proof (detach_returns p w0) as Hr;
    pose proof (contained_detach p
                  (contained_logToHubSpot HUBSPOT_TOKEN HS_post _) w0)
      as [Hm _];
    destruct (detach p w0) as [[[]|e'] w3]
  end; cbn in *; [auto | discriminate].
Qed.

(** The effects of a committed run start with the one carrier call; the
    rest is console output and CRM traffic. *)
Lemma send_committed_trace (req : request) (w : world) :
  truthy (req_to req) = true -> truthy (req_text req) = true ->
  twilio_configured = true ->
  exists rest,
    trace (snd (send req w))
      = (trace w ++ CarrierCreate (carrier_request req) :: rest)%list /\
    Forall crm_effect rest.
Proof.
  intros Hto Hbody Hcfg.
  rewrite (send_committed req w Hto Hbody Hcfg).
  unfold try_catch, bind, id', now, push, ret, console_error.
  unfold emit, lift.
  destruct (messages_create (carrier_request req)) as [sid|e];
    cbn [messages trace fst snd].
  2:{ rewrite <- app_assoc. eexists. split; [reflexivity|].
      repeat constructor. }
  destruct randomUUID as [i|e]; cbn [messages trace fst snd].
  2:{ rewrite <- app_assoc. eexists. split; [reflexivity|].
      repeat constructor. }
  destruct toISOString as [t|e]; cbn [messages trace fst snd].
  2:{ rewrite <- app_assoc. eexists. split; [reflexivity|].
      repeat constructor. }
  match goal with |- context [detach ?p ?w0] =>
    pose proof (detach_returns p w0) as Hr;
    pose proof (contained_detach p
                  (contained_logToHubSpot HUBSPOT_TOKEN HS_post _) w0)
      as (_ & new & Ht & Hnew);
    destruct (detach p w0) as [[[]|e'] w3]
  end; cbn in *; [|discriminate].
  rewrite Ht, <- app_assoc. eexists. split; [reflexivity | assumption].
Qed.

(** A carrier call in the effects of a run from a clean trace is the call
    for this request, made after validation and configuration passed. *)
Lemma send_carrier_call (req : request) (log : list message) (s : sms) :
  In (CarrierCreate s) (trace (snd (send req (World log [])))) ->
  s = carrier_request req /\
  truthy (req_to req) = true /\ truthy (req_text req) = true /\
  twilio_configured = true.
Proof.
  intros Hin.
  destruct (truthy (req_to req)) eqn:Hto;
    [|rewrite send_invalid in Hin by auto; contradiction].
  destruct (truthy (req_text req)) eqn:Hbody;
    [|rewrite send_invalid in Hin by auto; contradiction].
  destruct twilio_configured eqn:Hcfg;
    [|rewrite send_not_configured in Hin by auto; contradiction].
  destruct (send_committed_trace req (World log []) Hto Hbody Hcfg)
    as (rest & Ht & Hrest).
  rewrite Ht in Hin. cbn in Hin. destruct Hin as [[= <-] | Hin]; [auto|].
  rewrite Forall_forall in Hrest. destruct (Hrest _ Hin).
Qed.
End SendFacts.

(** ** The inbound webhook *)

Lemma webhook_appends (HUBSPOT_TOKEN : string)
      (HS_post : hs_request -> outcome hs_response)
      (i t : string) (fields : list (string * jsval))
      (authz : option string) (q : jsval) (w : world) :
  messages (snd (post_webhooks_twilio_sms HUBSPOT_TOKEN HS_post
                   (Returns i) (Returns t)
                   (Request authz q (Some fields)) w))
  = (messages w ++
     [Message i (normalizeUS (field "From" fields)) inbound
        (js_or (field "Body" fields) (JStr "")) t])%list.
Proof.
  unfold post_webhooks_twilio_sms, webhook_catch, try_catch, bind, id', now,
    push, ret, console_error.
  unfold emit, lift. cbn [req_body messages trace created_at].
  match goal with |- context [detach ?p ?w0] =>
    pose proof (detach_returns p w0) as Hr;
    pose proof (contained_detach p
                  (contained_logToHubSpot HUBSPOT_TOKEN HS_post _) w0)
      as [Hm _];
    destruct (detach p w0) as [[[]|e'] w3]
  end; cbn in *; [assumption | discriminate].
Qed.

(** ** Requests that carry a bearer token *)

Lemma startsWith_bearer (t : string) : startsWith ("Bearer " ++ t) "Bearer " = true.
Proof. unfold startsWith. cbn. now destruct t. Qed.

Lemma truthy_nonempty (t : string) : t <> "" -> truthy (JStr t) = true.
Proof. destruct t; [congruence | reflexivity]. Qed.

Lemma requireAuth_accepts (jwt_verify : string -> outcome user)
      (req : request) (next : user -> M response) (w : world)
      (t : string) (u : user) :
  authorization req = Some ("Bearer " ++ t) -> t <> "" ->
  jwt_verify t = Returns u ->
  requireAuth jwt_verify req next w = next u w.
Proof.
  intros Hh Ht Hv. unfold requireAuth.
  rewrite Hh, startsWith_bearer, slice7_bearer, (truthy_nonempty t Ht), Hv.
  reflexivity.
Qed.

Lemma requireAuth_invalid (jwt_verify : string -> outcome user)
      (req : request) (next : user -> M response) (w : world)
      (t : string) (e : js_error) :
  authorization req = Some ("Bearer " ++ t) -> t <> "" ->
  jwt_verify t = Throws e ->
  requireAuth jwt_verify req next w
  = (Returns (Response 401 (PError "Invalid token")), w).
Proof.
  intros Hh Ht Hv. unfold requireAuth.
  rewrite Hh, startsWith_bearer, slice7_bearer, (truthy_nonempty t Ht), Hv.
  reflexivity.
Qed.

Lemma requireAuth_missing (jwt_verify : string -> outcome user)
      (req : request) (next : user -> M response) (w : world) :
  authorization req = None ->
  requireAuth jwt_verify req next w
  = (Returns (Response 401 (PError "No token")), w).
Proof. intros Hh. unfold requireAuth. now rewrite Hh. Qed.

Lemma listMessages_normalized (log : list message) (raw : jsval) :
  listMessages log (normalizeUS raw) = listMessages log raw.
Proof.
  unfold listMessages. destruct (truthy raw) eqn:Hraw.
  - now rewrite (normalizeUS_truthy_fixed raw Hraw).
  - now rewrite !(normalizeUS_falsy raw Hraw).
Qed.

(* ================================================================== *)
(** * The claims *)

(** ** PhoneIdentity *)

Example normalizeUS_formatted :
  normalizeUS (JStr "(555) 123-4567") = JStr "+15551234567".
Proof. reflexivity. Qed.

Example normalizeUS_bare : normalizeUS (JStr "5551234567") = JStr "+15551234567".
Proof. reflexivity. Qed.

Example normalizeUS_e164 : normalizeUS (JStr "+15551234567") = JStr "+15551234567".
Proof. reflexivity. Qed.

Example normalizeUS_undefined : normalizeUS JUndefined = JUndefined.
Proof. reflexivity. Qed.

Example normalizeUS_short : normalizeUS (JStr "911") = JStr "+911".
Proof. reflexivity. Qed.

(** C2, as stated, fails: a raw string with a leading ['+'] and exactly ten
    digits (a Danish E.164 number) is not passed through as ['+'] and its
    digits; the ten-digit branch comes first and prepends the country
    code. *)
Lemma normalizeUS_plus_ten_digits :
  startsWith "+4512345678" "+" = true /\
  normalizeUS (JStr "+4512345678") = JStr "+14512345678" /\
  normalizeUS (JStr "+4512345678")
    <> JStr ("+" ++ strip_non_digits "+4512345678").
Proof. repeat split. discriminate. Qed.

(** C2, amended: for every non-empty raw string, with [digits] its digit
    string: when the raw string has a leading ['+'], [normalizeUS] returns
    ['+'] followed by [digits], except that exactly ten digits get ["+1"]
    in front (the ten-digit branch is tested first); when it has no leading
    ['+'], the result is that of the ten-digit branch, the eleven-digit
    branch or the unconditional ['+'] fallback. *)
Theorem normalizeUS_branch_table (s : string) :
  s <> "" ->
  let digits := strip_non_digits s in
  normalizeUS (JStr s) =
    if startsWith s "+"
    then JStr ((if (String.length digits =? 10)%nat then "+1" else "+")
               ++ digits)
    else if (String.length digits =? 10)%nat then JStr ("+1" ++ digits)
    else if startsWith digits "1" && (String.length digits =? 11)%nat
         then JStr ("+" ++ digits)
    else JStr ("+" ++ digits).
Proof.
  intros Hs digits.
  rewrite (normalizeUS_truthy (JStr s) (truthy_nonempty s Hs)).
  cbn [to_String]. fold digits. unfold country_prefix.
  destruct (startsWith s "+"); [reflexivity|].
  destruct (String.length digits =? 10)%nat; [reflexivity|].
  destruct (startsWith digits "1" && _); reflexivity.
Qed.

Lemma normalizeUS_branch_table_witness :
  normalizeUS (JStr "+44 20 7946 0958") = JStr "+442079460958".
Proof.
  exact (normalizeUS_branch_table "+44 20 7946 0958"
           ltac:(discriminate)).
Defined.

(** C7: [normalizeUS] is idempotent on every value it can be given,
    [undefined], [null] and the empty string included. *)
Theorem normalizeUS_idempotent (x : jsval) :
  normalizeUS (normalizeUS x) = normalizeUS x.
Proof.
  destruct (truthy x) eqn:Hx.
  - now apply normalizeUS_truthy_fixed.
  - rewrite (normalizeUS_falsy x Hx). now apply normalizeUS_falsy.
Qed.

(** ** ConversationStore *)

(** C1, as stated, fails: two webhook calls for one identity, the second
    reading an earlier clock than the first, are listed in clock order, the
    second-appended message first. *)
Lemma listMessages_follows_the_clock :
  let hook := post_webhooks_twilio_sms "" (fun _ => Returns (HsResponse None)) in
  let form text := Some [("From", JStr "+15551234567"); ("Body", JStr text)] in
  let w1 := snd (hook (Returns "a1") (Returns "2024-03-10T10:00:01.000Z")
                   (Request None JUndefined (form "first")) (World [] [])) in
  let w2 := snd (hook (Returns "b2") (Returns "2024-03-10T10:00:00.500Z")
                   (Request None JUndefined (form "second")) w1) in
  let m1 := Message "a1" (JStr "+15551234567") inbound (JStr "first")
              "2024-03-10T10:00:01.000Z" in
  let m2 := Message "b2" (JStr "+15551234567") inbound (JStr "second")
              "2024-03-10T10:00:00.500Z" in
  messages w2 = [m1; m2] /\
  listMessages (messages w2) (JStr "+15551234567") = [m2; m1] /\
  ~ (exists a b c, listMessages (messages w2) (JStr "+15551234567")
                   = (a ++ m1 :: b ++ m2 :: c)%list).
Proof.
  cbv zeta. split; [reflexivity|]. split; [reflexivity|].
  intros (a & b & c & H). vm_compute in H.
  destruct a as [|x [|y a]]; cbn in H.
  - discriminate H.
  - injection H as _ H. destruct b; discriminate H.
  - injection H as _ _ H. destruct a; discriminate H.
Qed.

(** C1, amended: when [m1] was appended before [m2], both for the identity
    that the query normalises to, and [m1.created_at] is not later than
    [m2.created_at], [GET /messages] lists [m1] before [m2]; with equal
    timestamps the tie keeps append order.  ([created_at] is the clock
    reading at the append; the code does not make it non-decreasing.) *)
Theorem listMessages_append_order (log : list message) (raw : jsval)
        (m1 m2 : message) (l1 l2 l3 : list message) :
  log = (l1 ++ m1 :: l2 ++ m2 :: l3)%list ->
  customer_phone m1 = normalizeUS raw ->
  customer_phone m2 = normalizeUS raw ->
  str_le (created_at m1) (created_at m2) ->
  exists a b c, listMessages log raw = (a ++ m1 :: b ++ m2 :: c)%list.
Proof.
  intros Hlog H1 H2 Ht. apply before_split.
  apply listMessages_before; try assumption.
  apply before_split. now exists l1, l2, l3.
Qed.

Lemma listMessages_append_order_witness :
  let m1 := Message "a1" (JStr "+15551234567") inbound (JStr "first")
              "2024-03-10T10:00:01.000Z" in
  let m2 := Message "b2" (JStr "+15551234567") outbound (JStr "second")
              "2024-03-10T10:00:01.000Z" in
  exists a b c,
    listMessages [m1; m2] (JStr "(555) 123-4567")
    = (a ++ m1 :: b ++ m2 :: c)%list.
Proof.
  cbv zeta.
  apply (listMessages_append_order _ (JStr "(555) 123-4567") _ _ [] [] []);
    reflexivity.
Defined.

(** C8: whatever the log holds, [GET /conversations] answers with one entry
    per identity that occurs in the log and no other, each entry's [last_at]
    is the [created_at] of one of that identity's messages and none of them
    is later, and the entries come most recently active first. *)
Theorem listConversations_summary (log : list message) :
  NoDup (map s_customer_phone (listConversations log)) /\
  (forall k, In k (map s_customer_phone (listConversations log))
             <-> In k (map customer_phone log)) /\
  (forall s, In s (listConversations log) ->
     (exists msg, In msg log /\ customer_phone msg = s_customer_phone s /\
                  created_at msg = last_at s) /\
     (forall msg, In msg log -> customer_phone msg = s_customer_phone s ->
                  str_le (created_at msg) (last_at s))) /\
  StronglySorted latest_first (listConversations log).
Proof.
  unfold listConversations.
  destruct (conversations_map_summarises log) as [Hnd Hseen Hlatest].
  set (m := conversations_map log) in *.
  pose proof (sort_perm _ by_last_at_desc (map_values m)) as Hperm.
  assert (Hentry : forall s, In s (map_values m) ->
            map_get (s_customer_phone s) m = Some s).
  { intros s Hs. apply in_map_iff in Hs as ([k v] & <- & Hin). cbn.
    pose proof (map_get_In k v m Hnd Hin) as Hg.
    destruct (Hlatest _ _ Hg) as (-> & _). exact Hg. }
  assert (Hkeys : map s_customer_phone (map_values m) = map fst m).
  { unfold map_values. rewrite map_map. apply map_ext_in.
    intros [k v] Hin. cbn.
    now destruct (Hlatest _ _ (map_get_In k v m Hnd Hin)) as (-> & _). }
  repeat split.
  - eapply Permutation_NoDup;
      [symmetry; apply Permutation_map; exact Hperm|].
    now rewrite Hkeys.
  - intros Hk.
    eapply Permutation_in in Hk; [|apply Permutation_map; exact Hperm].
    rewrite Hkeys in Hk. apply in_map_iff in Hk as ([k' v] & <- & Hin). cbn.
    destruct (Hlatest _ _ (map_get_In k' v m Hnd Hin))
      as (_ & (msg & Hmsg & <- & _) & _).
    now apply in_map.
  - intros Hk. apply in_map_iff in Hk as (msg & <- & Hmsg).
    eapply Permutation_in;
      [symmetry; apply Permutation_map; exact Hperm|].
    rewrite Hkeys.
    destruct (in_dec jsval_eq_dec (customer_phone msg) (map fst m))
      as [|Hnot]; [assumption|].
    apply map_get_None in Hnot. now apply Hseen in Hmsg.
  - apply (Permutation_in _ Hperm) in H.
    now destruct (Hlatest _ _ (Hentry _ H)) as (_ & Hex & _).
  - apply (Permutation_in _ Hperm) in H.
    destruct (Hlatest _ _ (Hentry _ H)) as (_ & _ & Hmax). exact Hmax.
  - apply sort_by_last_at_desc_sorted.
Qed.

(** C10: [GET /messages] answers a raw phone and its normal form alike:
    the listing for [normalizeUS r] is the listing for [r], and the whole
    route gives the same answer and leaves the same world. *)
Theorem get_messages_normalized_query
        (jwt_verify : string -> outcome user) (req : request) (w : world) :
  listMessages (messages w) (normalizeUS (query_phone req))
    = listMessages (messages w) (query_phone req) /\
  get_messages jwt_verify
    (Request (authorization req) (normalizeUS (query_phone req))
       (req_body req)) w
  = get_messages jwt_verify req w.
Proof.
  split; [apply listMessages_normalized|].
  unfold get_messages, requireAuth. cbn [authorization query_phone].
  destruct (startsWith _ "Bearer "); [|reflexivity].
  destruct (negb (truthy (JStr _))); [reflexivity|].
  destruct (jwt_verify _) as [u|e]; [|reflexivity].
  unfold bind, read_messages, ret. now rewrite listMessages_normalized.
Qed.

(** ** MessageGateway *)

(** C4: the webhook answers 200 with the empty XML acknowledgement whatever
    the request holds and whichever step throws: a missing body, [id()],
    [now()] or the CRM mirror.  More generally its [catch] block turns every
    error into that acknowledgement: any [try] block that can only answer
    with the acknowledgement, and may throw anywhere, is so answered. *)
Theorem webhook_always_acknowledges (HUBSPOT_TOKEN : string)
        (HS_post : hs_request -> outcome hs_response)
        (randomUUID toISOString : outcome string)
        (req : request) (w : world) :
  fst (post_webhooks_twilio_sms HUBSPOT_TOKEN HS_post randomUUID toISOString
         req w)
  = Returns (Response 200 (PXml "<Response/>")) /\
  (forall block : M response,
     (forall w0 r w1, block w0 = (Returns r, w1) ->
                      r = Response 200 (PXml "<Response/>")) ->
     fst (try_catch block webhook_catch w)
     = Returns (Response 200 (PXml "<Response/>"))).
Proof.
  split.
  - unfold post_webhooks_twilio_sms, webhook_catch, try_catch, bind, id', now,
      push, ret, console_error.
    unfold emit, lift.
    destruct (req_body req) as [fields|]; [|reflexivity].
    destruct randomUUID as [i|e]; [|reflexivity].
    destruct toISOString as [t|e]; [|reflexivity].
    cbn [messages trace created_at].
    match goal with |- context [detach ?p ?w0] =>
      pose proof (detach_returns p w0) as Hr;
      destruct (detach p w0) as [[[]|e'] w3]
    end; cbn in *; [reflexivity | discriminate].
  - intros block Hack. unfold try_catch.
    destruct (block w) as [[r|e] w1] eqn:Hb; [|reflexivity].
    cbn. now rewrite (Hack _ _ _ Hb).
Qed.

(** C9: when [to] or [body] is missing or empty, the handler of
    [POST /messages] answers 400 and leaves the world as it found it: no
    carrier call, no message appended, every listing unchanged.  The route
    as a whole (with [requireAuth] in front) leaves the world unchanged as
    well. *)
Theorem post_messages_validation
        (TWILIO_ACCOUNT_SID TWILIO_AUTH_TOKEN : string)
        (TWILIO_MESSAGING_SERVICE_SID HUBSPOT_TOKEN : string)
        (jwt_verify : string -> outcome user)
        (messages_create : sms -> outcome string)
        (HS_post : hs_request -> outcome hs_response)
        (randomUUID toISOString : outcome string)
        (req : request) (w : world) :
  truthy (req_to req) = false \/ truthy (req_text req) = false ->
  send_handler TWILIO_ACCOUNT_SID TWILIO_AUTH_TOKEN
    TWILIO_MESSAGING_SERVICE_SID HUBSPOT_TOKEN messages_create HS_post
    randomUUID toISOString req w
  = (Returns (Response 400 (PError "to and body required")), w) /\
  snd (post_messages TWILIO_ACCOUNT_SID TWILIO_AUTH_TOKEN
         TWILIO_MESSAGING_SERVICE_SID HUBSPOT_TOKEN jwt_verify
         messages_create HS_post randomUUID toISOString req w) = w /\
  (forall phone,
     listMessages
       (messages
          (snd (post_messages TWILIO_ACCOUNT_SID TWILIO_AUTH_TOKEN
                  TWILIO_MESSAGING_SERVICE_SID HUBSPOT_TOKEN jwt_verify
                  messages_create HS_post randomUUID toISOString req w)))
       phone
     = listMessages (messages w) phone) /\
  (forall t u,
     authorization req = Some ("Bearer " ++ t) -> t <> "" ->
     jwt_verify t = Returns u ->
     post_messages TWILIO_ACCOUNT_SID TWILIO_AUTH_TOKEN
       TWILIO_MESSAGING_SERVICE_SID HUBSPOT_TOKEN jwt_verify
       messages_create HS_post randomUUID toISOString req w
     = (Returns (Response 400 (PError "to and body required")), w)).
Proof.
  intros Hbad.
  assert (Hw : snd (post_messages TWILIO_ACCOUNT_SID TWILIO_AUTH_TOKEN
         TWILIO_MESSAGING_SERVICE_SID HUBSPOT_TOKEN jwt_verify
         messages_create HS_post randomUUID toISOString req w) = w).
  { unfold post_messages.
    destruct (requireAuth_cases jwt_verify req
                (fun _ => send_handler TWILIO_ACCOUNT_SID TWILIO_AUTH_TOKEN
                   TWILIO_MESSAGING_SERVICE_SID HUBSPOT_TOKEN messages_create
                   HS_post randomUUID toISOString req) w)
      as [H | [H | [u H]]]; rewrite H; [reflexivity | reflexivity |].
    now rewrite send_invalid. }
  split; [now apply send_invalid|]. split; [exact Hw|].
  split; [intros phone; now rewrite Hw|].
  intros t u Hh Ht Hv. unfold post_messages.
  rewrite (requireAuth_accepts jwt_verify req _ w t u Hh Ht Hv).
  now apply send_invalid.
Qed.

Lemma post_messages_validation_witness :
  let req := Request (Some "Bearer good") JUndefined
               (Some [("to", JStr "5551234567")]) in
  send_handler "AC1" "secret" "MG1" "" (fun _ => Returns "SM1")
    (fun _ => Returns (HsResponse None)) (Returns "a1")
    (Returns "2024-03-10T10:00:01.000Z") req (World [] [])
  = (Returns (Response 400 (PError "to and body required")), World [] []).
Proof.
  cbv zeta.
  refine (proj1 (post_messages_validation "AC1" "secret" "MG1" ""
            (fun _ => Returns (User "u1" "rep@example.com"))
            (fun _ => Returns "SM1") (fun _ => Returns (HsResponse None))
            (Returns "a1") (Returns "2024-03-10T10:00:01.000Z")
            _ (World [] []) _)).
  right. reflexivity.
Defined.

(** C3: when a run of [POST /messages] calls the carrier and that call
    fails, the answer is 500 ["Send failed"] and the log is the log the run
    started from. *)
Theorem post_messages_carrier_failure
        (TWILIO_ACCOUNT_SID TWILIO_AUTH_TOKEN : string)
        (TWILIO_MESSAGING_SERVICE_SID HUBSPOT_TOKEN : string)
        (jwt_verify : string -> outcome user)
        (messages_create : sms -> outcome string)
        (HS_post : hs_request -> outcome hs_response)
        (randomUUID toISOString : outcome string)
        (req : request) (log : list message) (s : sms) (e : js_error) :
  In (CarrierCreate s)
     (trace (snd (post_messages TWILIO_ACCOUNT_SID TWILIO_AUTH_TOKEN
                    TWILIO_MESSAGING_SERVICE_SID HUBSPOT_TOKEN jwt_verify
                    messages_create HS_post randomUUID toISOString req
                    (World log [])))) ->
  messages_create s = Throws e ->
  fst (post_messages TWILIO_ACCOUNT_SID TWILIO_AUTH_TOKEN
         TWILIO_MESSAGING_SERVICE_SID HUBSPOT_TOKEN jwt_verify
         messages_create HS_post randomUUID toISOString req (World log []))
  = Returns (Response 500 (PError "Send failed")) /\
  messages (snd (post_messages TWILIO_ACCOUNT_SID TWILIO_AUTH_TOKEN
                   TWILIO_MESSAGING_SERVICE_SID HUBSPOT_TOKEN jwt_verify
                   messages_create HS_post randomUUID toISOString req
                   (World log [])))
  = log.
Proof.
  unfold post_messages. intros Hin Hfail.
  destruct (requireAuth_cases jwt_verify req
              (fun _ => send_handler TWILIO_ACCOUNT_SID TWILIO_AUTH_TOKEN
                 TWILIO_MESSAGING_SERVICE_SID HUBSPOT_TOKEN messages_create
                 HS_post randomUUID toISOString req) (World log []))
    as [H | [H | [u H]]]; rewrite H in *; try contradiction.
  apply send_carrier_call in Hin as (-> & Hto & Hbody & Hcfg).
  rewrite (send_carrier_fails _ _ _ _ _ _ _ _ _ _ e Hto Hbody Hcfg Hfail).
  split; reflexivity.
Qed.

Lemma post_messages_carrier_failure_witness :
  let req := Request (Some "Bearer good") JUndefined
               (Some [("to", JStr "(555) 123-4567"); ("body", JStr "hello")]) in
  let run := post_messages "AC1" "secret" "MG1" "hs-token"
               (fun _ => Returns (User "u1" "rep@example.com"))
               (fun _ => Throws (JsError JUndefined "carrier unreachable"))
               (fun _ => Returns (HsResponse None)) (Returns "a1")
               (Returns "2024-03-10T10:00:01.000Z") req (World [] []) in
  fst run = Returns (Response 500 (PError "Send failed")) /\
  messages (snd run) = [].
Proof.
  cbv zeta.
  apply (post_messages_carrier_failure "AC1" "secret" "MG1" "hs-token" _ _ _ _ _
           _ [] (Sms (JStr "+15551234567") (JStr "hello") "MG1")
           (JsError JUndefined "carrier unreachable")).
  - left. reflexivity.
  - reflexivity.
Defined.

(** C5: [logToHubSpot] never throws back: without a [HUBSPOT_TOKEN] it
    returns at once, touching nothing and calling no one; with a token,
    whatever the CRM answers or throws, it returns, leaves the log alone
    and adds only CRM calls and console lines; a failing contact search,
    for one, is followed by a single [console.error] line and no further
    call.  A send that the carrier accepted answers 200 with the stored
    message whatever the CRM does. *)
Theorem logToHubSpot_isolated (HUBSPOT_TOKEN : string)
        (HS_post : hs_request -> outcome hs_response)
        (ev : event) (w : world) :
  logToHubSpot "" HS_post ev w = (Returns tt, w) /\
  fst (logToHubSpot HUBSPOT_TOKEN HS_post ev w) = Returns tt /\
  only_crm_effects w (snd (logToHubSpot HUBSPOT_TOKEN HS_post ev w)) /\
  (forall e,
     HUBSPOT_TOKEN <> "" ->
     HS_post (ContactsSearch (normalizeUS (js_or (ev_from ev) (ev_to ev))))
       = Throws e ->
     logToHubSpot HUBSPOT_TOKEN HS_post ev w
     = (Returns tt,
        World (messages w)
          (trace w ++
           [HubSpotPost
              (ContactsSearch (normalizeUS (js_or (ev_from ev) (ev_to ev))));
            ConsoleError "HubSpot log error"
              (js_or (response_data e) (JStr (err_message e)))]))) /\
  (forall (TWILIO_ACCOUNT_SID TWILIO_AUTH_TOKEN : string)
          (TWILIO_MESSAGING_SERVICE_SID : string)
          (messages_create : sms -> outcome string)
          (randomUUID toISOString : outcome string)
          (req : request) (sid i t : string),
     truthy (req_to req) = true -> truthy (req_text req) = true ->
     twilio_configured TWILIO_ACCOUNT_SID TWILIO_AUTH_TOKEN
       TWILIO_MESSAGING_SERVICE_SID = true ->
     messages_create (carrier_request TWILIO_MESSAGING_SERVICE_SID req)
       = Returns sid ->
     randomUUID = Returns i -> toISOString = Returns t ->
     let msg := Message i (normalizeUS (req_to req)) outbound
                  (req_text req) t in
     let out := send_handler TWILIO_ACCOUNT_SID TWILIO_AUTH_TOKEN
                  TWILIO_MESSAGING_SERVICE_SID HUBSPOT_TOKEN messages_create
                  HS_post randomUUID toISOString req w in
     fst out = Returns (Response 200 (PSent sid msg)) /\
     messages (snd out) = (messages w ++ [msg])%list).
Proof.
  split; [reflexivity|]. split.
  { destruct (never_throws_logToHubSpot HUBSPOT_TOKEN HS_post ev w)
      as [[] H]. exact H. }
  split; [apply contained_logToHubSpot|]. split.
  { intros e Htoken Hsearch. unfold logToHubSpot.
    rewrite (truthy_nonempty _ Htoken). cbn [negb].
    unfold post, console_error. unfold try_catch, bind, emit, lift.
    rewrite Hsearch. cbn [messages trace]. now rewrite <- app_assoc. }
  intros. now apply send_accepted.
Qed.

Lemma logToHubSpot_isolated_witness :
  let crm_down := fun _ : hs_request =>
                    @Throws hs_response (JsError JUndefined "ECONNREFUSED") in
  let req := Request (Some "Bearer good") JUndefined
               (Some [("to", JStr "(555) 123-4567"); ("body", JStr "hello")]) in
  let msg := Message "a1" (JStr "+15551234567") outbound (JStr "hello")
               "2024-03-10T10:00:01.000Z" in
  let out := send_handler "AC1" "secret" "MG1" "hs-token"
               (fun _ => Returns "SM1") crm_down (Returns "a1")
               (Returns "2024-03-10T10:00:01.000Z") req (World [] []) in
  fst out = Returns (Response 200 (PSent "SM1" msg)) /\
  messages (snd out) = [msg].
Proof.
  cbv zeta.
  refine (proj2 (proj2 (proj2 (proj2
            (logToHubSpot_isolated "hs-token" _
               (Event JNull JNull JNull "") (World [] [])))))
            "AC1" "secret" "MG1" (fun _ => Returns "SM1") (Returns "a1")
            (Returns "2024-03-10T10:00:01.000Z") _ "SM1" "a1"
            "2024-03-10T10:00:01.000Z" _ _ _ _ _ _); reflexivity.
Defined.

(** ** AuthGate *)

(** C6, as stated, fails: a request without a token and a request with a
    malformed token are both answered 401 with an [{ error }] body, but the
    bodies differ (["No token"] against ["Invalid token"]), so the caller can
    tell the two cases apart. *)
Lemma requireAuth_missing_differs_from_invalid :
  let jwt_verify := fun _ : string =>
                      @Throws user (JsError JUndefined "jwt malformed") in
  let next := fun _ : user => ret (Response 200 (PText "ok")) in
  let w := World [] [] in
  let missing := requireAuth jwt_verify (Request None JUndefined None) next w in
  let malformed :=
    requireAuth jwt_verify (Request (Some "Bearer abc") JUndefined None) next w in
  fst missing = Returns (Response 401 (PError "No token")) /\
  fst malformed = Returns (Response 401 (PError "Invalid token")) /\
  fst missing <> fst malformed.
Proof. cbv zeta. repeat split. discriminate. Qed.

(** C6, amended: every token that fails verification, malformed or expired
    alike, gets the same answer, 401 [{ error: "Invalid token" }], with the
    world untouched; a request without a token gets 401
    [{ error: "No token" }]: the same status and the same shape, a
    different message. *)
Theorem requireAuth_rejections (jwt_verify : string -> outcome user)
        (next : user -> M response) (w : world)
        (req1 req2 : request) (t1 t2 : string) (e1 e2 : js_error) :
  authorization req1 = Some ("Bearer " ++ t1) -> t1 <> "" ->
  jwt_verify t1 = Throws e1 ->
  authorization req2 = Some ("Bearer " ++ t2) -> t2 <> "" ->
  jwt_verify t2 = Throws e2 ->
  requireAuth jwt_verify req1 next w = requireAuth jwt_verify req2 next w /\
  requireAuth jwt_verify req1 next w
    = (Returns (Response 401 (PError "Invalid token")), w) /\
  (forall req0, authorization req0 = None ->
     requireAuth jwt_verify req0 next w
     = (Returns (Response 401 (PError "No token")), w)).
Proof.
  intros Hh1 Ht1 Hv1 Hh2 Ht2 Hv2.
  rewrite (requireAuth_invalid jwt_verify req1 next w t1 e1 Hh1 Ht1 Hv1).
  rewrite (requireAuth_invalid jwt_verify req2 next w t2 e2 Hh2 Ht2 Hv2).
  repeat split. intros req0. apply requireAuth_missing.
Qed.

Lemma requireAuth_rejections_witness :
  let jwt_verify := fun t : string =>
    if (t =? "stale")%string
    then @Throws user (JsError JUndefined "jwt expired")
    else Throws (JsError JUndefined "jwt malformed") in
  let next := fun _ : user => ret (Response 200 (PText "ok")) in
  requireAuth jwt_verify (Request (Some "Bearer stale") JUndefined None) next
    (World [] [])
  = requireAuth jwt_verify (Request (Some "Bearer abc") JUndefined None) next
      (World [] []).
Proof.
  cbv zeta.
  refine (proj1 (requireAuth_rejections _ _ (World [] [])
            (Request (Some "Bearer stale") JUndefined None)
            (Request (Some "Bearer abc") JUndefined None)
            "stale" "abc" (JsError JUndefined "jwt expired")
            (JsError JUndefined "jwt malformed") _ _ _ _ _ _));
    solve [reflexivity | discriminate].
Defined.

(* ================================================================== *)
(** * Further properties of the code *)

(** ** [normalizeUS] *)

Lemma length_strip_prepend_one (d : string) :
  String.length ("1" ++ d) = S (String.length d).
Proof. reflexivity. Qed.



(** X2: two non-empty raw strings get the same identity exactly when they
    hold the same digits, or one holds ten digits and the other the same
    ten behind a [1]. *)
Theorem normalizeUS_same_identity (s1 s2 : string) :
  s1 <> "" -> s2 <> "" ->
  (normalizeUS (JStr s1) = normalizeUS (JStr s2) <->
   strip_non_digits s1 = strip_non_digits s2 \/
   (String.length (strip_non_digits s1) = 10 /\
    strip_non_digits s2 = "1" ++ strip_non_digits s1) \/
   (String.length (strip_non_digits s2) = 10 /\
    strip_non_digits s1 = "1" ++ strip_non_digits s2)).
Proof.
  intros H1 H2.
  rewrite (normalizeUS_truthy _ (truthy_nonempty s1 H1)).
  rewrite (normalizeUS_truthy _ (truthy_nonempty s2 H2)).
  cbn [to_String]. unfold country_prefix.
  set (d1 := strip_non_digits s1). set (d2 := strip_non_digits s2).
  destruct (Nat.eqb_spec (String.length d1) 10) as [L1|L1];
    destruct (Nat.eqb_spec (String.length d2) 10) as [L2|L2]; split.
  - intros [= E]. now left.
  - intros [E | [[_ E] | [_ E]]].
    + now rewrite E.
    + rewrite E, length_strip_prepend_one in L2. lia.
    + rewrite E, length_strip_prepend_one in L1. lia.
  - intros [= E]. right. left. auto.
  - intros [E | [[_ E] | [L E]]].
    + rewrite E in L1. contradiction.
    + now rewrite E.
    + contradiction.
  - intros [= E]. right. right. auto.
  - intros [E | [[L E] | [_ E]]].
    + rewrite E in L1. contradiction.
    + contradiction.
    + now rewrite E.
  - intros [= E]. now left.
  - intros [E | [[L E] | [L E]]]; [now rewrite E | contradiction | contradiction].
Qed.

Lemma normalizeUS_same_identity_witness :
  normalizeUS (JStr "(555) 123-4567") = normalizeUS (JStr "+1 555-123-4567").
Proof.
  apply (normalizeUS_same_identity "(555) 123-4567" "+1 555-123-4567");
    [discriminate | discriminate |].
  right. left. split; reflexivity.
Defined.

(** X3: a truthy input that holds no digit at all (an alphanumeric sender
    name, say) is given the identity ["+"], the same for all of them. *)
Theorem normalizeUS_without_digits (p : jsval) :
  truthy p = true ->
  strip_non_digits (to_String p) = "" ->
  normalizeUS p = JStr "+".
Proof.
  intros Hp Hd. rewrite (normalizeUS_truthy p Hp), Hd. reflexivity.
Qed.

Lemma normalizeUS_without_digits_witness :
  normalizeUS (JStr "AMAZON") = JStr "+".
Proof.
  exact (normalizeUS_without_digits (JStr "AMAZON") eq_refl eq_refl).
Defined.

(** ** [requireAuth] and the routes behind it *)

Lemma substring_whole (s : string) : String.substring 0 (String.length s) s = s.
Proof. induction s as [|c s IH]; cbn; [reflexivity | now rewrite IH]. Qed.

Lemma prefix_split (p s : string) :
  String.prefix p s = true ->
  s = p ++ String.substring (String.length p)
            (String.length s - String.length p) s.
Proof.
  revert s. induction p as [|a p IH]; intros s H.
  - cbn. now rewrite Nat.sub_0_r, substring_whole.
  - destruct s as [|b s]; [discriminate H|]. cbn [String.prefix] in H.
    destruct (ascii_dec a b) as [<-|]; [|discriminate H].
    cbn. f_equal. now apply IH.
Qed.

Lemma bearer_split (h : string) :
  startsWith h "Bearer " = true -> h = "Bearer " ++ slice7 h.
Proof. intros H. apply (prefix_split "Bearer " h H). Qed.

(** X4: the handler behind [requireAuth] runs only for a request whose
    [Authorization] header is ["Bearer "] followed by a non-empty token that
    [jwt.verify] accepts, and it runs on the verified payload; any other
    request is answered 401 with an [{ error }] body and nothing else
    happens. *)
Theorem requireAuth_sound (jwt_verify : string -> outcome user)
        (req : request) (next : user -> M response) (w : world) :
  (exists t u,
     authorization req = Some ("Bearer " ++ t) /\ t <> "" /\
     jwt_verify t = Returns u /\
     requireAuth jwt_verify req next w = next u w) \/
  (exists msg,
     requireAuth jwt_verify req next w
     = (Returns (Response 401 (PError msg)), w)).
Proof.
  unfold requireAuth.
  destruct (authorization req) as [h|] eqn:Hh; [|right; eexists; reflexivity].
  destruct (startsWith h "Bearer ") eqn:Hb; [|right; eexists; reflexivity].
  destruct (truthy (JStr (slice7 h))) eqn:Ht; cbn [negb]; [|right; eexists; reflexivity].
  destruct (jwt_verify (slice7 h)) as [u|e] eqn:Hv; [|right; eexists; reflexivity].
  left. exists (slice7 h), u.
  split; [f_equal; now apply bearer_split|].
  split; [intros E; rewrite E in Ht; discriminate Ht|].
  split; [exact Hv | reflexivity].
Qed.

(** X5: the two reading routes never change the log and perform no effect,
    whoever asks; to a request with an accepted token they answer 200 with
    the listing computed from the log as it stands. *)
Theorem reads_leave_the_world_alone (jwt_verify : string -> outcome user)
        (req : request) (w : world) :
  snd (get_conversations jwt_verify req w) = w /\
  snd (get_messages jwt_verify req w) = w /\
  (forall t u,
     authorization req = Some ("Bearer " ++ t) -> t <> "" ->
     jwt_verify t = Returns u ->
     fst (get_conversations jwt_verify req w)
       = Returns (Response 200
                    (PConversations (listConversations (messages w)))) /\
     fst (get_messages jwt_verify req w)
       = Returns (Response 200
                    (PMessages (listMessages (messages w) (query_phone req))))).
Proof.
  unfold get_conversations, get_messages. repeat split.
  - match goal with |- context [requireAuth _ _ ?k _] =>
      destruct (requireAuth_cases jwt_verify req k w) as [H | [H | [u H]]]
    end; rewrite H; reflexivity.
  - match goal with |- context [requireAuth _ _ ?k _] =>
      destruct (requireAuth_cases jwt_verify req k w) as [H | [H | [u H]]]
    end; rewrite H; reflexivity.
  - now rewrite (requireAuth_accepts jwt_verify req _ w t u).
  - now rewrite (requireAuth_accepts jwt_verify req _ w t u).
Qed.

(** ** What the writing routes do to the log *)

Lemma normalizeUS_twice (x : jsval) : normalizeUS (normalizeUS x) = normalizeUS x.
Proof.
  destruct (truthy x) eqn:Hx; [now apply normalizeUS_truthy_fixed|].
  now rewrite !(normalizeUS_falsy x Hx).
Qed.

Section LogFacts.
Variables TWILIO_ACCOUNT_SID TWILIO_AUTH_TOKEN : string.
Variables TWILIO_MESSAGING_SERVICE_SID HUBSPOT_TOKEN : string.
Variable jwt_verify : string -> outcome user.
Variable messages_create : sms -> outcome string.
Variable HS_post : hs_request -> outcome hs_response.
Variable randomUUID : outcome string.
Variable toISOString : outcome string.

Local Abbreviation send :=
  (send_handler TWILIO_ACCOUNT_SID TWILIO_AUTH_TOKEN
     TWILIO_MESSAGING_SERVICE_SID HUBSPOT_TOKEN messages_create HS_post
     randomUUID toISOString).
Local Abbreviation send_route :=
  (post_messages TWILIO_ACCOUNT_SID TWILIO_AUTH_TOKEN
     TWILIO_MESSAGING_SERVICE_SID HUBSPOT_TOKEN jwt_verify messages_create
     HS_post randomUUID toISOString).
Local Abbreviation hook :=
  (post_webhooks_twilio_sms HUBSPOT_TOKEN HS_post randomUUID toISOString).
Local Abbreviation configured :=
  (twilio_configured TWILIO_ACCOUNT_SID TWILIO_AUTH_TOKEN
     TWILIO_MESSAGING_SERVICE_SID).

(** The log after the handler of [POST /messages]: as before, or one
    outbound message more. *)
Lemma send_log (req : request) (w : world) :
  messages (snd (send req w)) = messages w \/
  exists i t,
    messages (snd (send req w))
    = (messages w ++
       [Message i (normalizeUS (req_to req)) outbound (req_text req) t])%list.
Proof.
  destruct (truthy (req_to req)) eqn:Hto;
    [|left; rewrite send_invalid by auto; reflexivity].
  destruct (truthy (req_text req)) eqn:Hbody;
    [|left; rewrite send_invalid by auto; reflexivity].
  destruct configured eqn:Hcfg;
    [|left; rewrite send_not_configured by auto; reflexivity].
  rewrite (send_committed _ _ _ _ _ _ _ _ req w Hto Hbody Hcfg).
  unfold try_catch, bind, id', now, push, ret, console_error.
  unfold emit, lift.
  destruct (messages_create _) as [sid|e]; cbn [messages trace fst snd];
    [|now left].
  destruct randomUUID as [i|e]; cbn [messages trace fst snd]; [|now left].
  destruct toISOString as [t|e]; cbn [messages trace fst snd]; [|now left].
  right. exists i, t.
  match goal with |- context [detach ?p ?w0] =>
    pose proof (detach_returns p w0) as Hr;
    pose proof (contained_detach p
                  (contained_logToHubSpot HUBSPOT_TOKEN HS_post _) w0)
      as [Hm _];
    destruct (detach p w0) as [[[]|e'] w3]
  end; cbn in *; [assumption | discriminate].
Qed.

Lemma send_route_log (req : request) (w : world) :
  messages (snd (send_route req w)) = messages w \/
  exists i t,
    messages (snd (send_route req w))
    = (messages w ++
       [Message i (normalizeUS (req_to req)) outbound (req_text req) t])%list.
Proof.
  unfold post_messages.
  destruct (requireAuth_cases jwt_verify req (fun _ => send req) w)
    as [H | [H | [u H]]]; rewrite H; [now left | now left | apply send_log].
Qed.

(** The log after the webhook: as before, or one inbound message more. *)
Lemma hook_log (req : request) (w : world) :
  messages (snd (hook req w)) = messages w \/
  exists fields i t,
    req_body req = Some fields /\
    messages (snd (hook req w))
    = (messages w ++
       [Message i (normalizeUS (field "From" fields)) inbound
          (js_or (field "Body" fields) (JStr "")) t])%list.
Proof.
  unfold post_webhooks_twilio_sms, webhook_catch, try_catch, bind, id', now,
    push, ret, console_error.
  unfold emit, lift.
  destruct (req_body req) as [fields|]; [|now left].
  destruct randomUUID as [i|e]; [|now left].
  destruct toISOString as [t|e]; [|now left].
  right. exists fields, i, t. split; [reflexivity|].
  cbn [messages trace created_at].
  match goal with |- context [detach ?p ?w0] =>
    pose proof (detach_returns p w0) as Hr;
    pose proof (contained_detach p
                  (contained_logToHubSpot HUBSPOT_TOKEN HS_post _) w0)
      as [Hm _];
    destruct (detach p w0) as [[[]|e'] w3]
  end; cbn in *; [assumption | discriminate].
Qed.

(** X6: the log is append-only.  [POST /messages] and the webhook leave
    every stored message where it is and add at most one at the end, an
    outbound one for the first and an inbound one for the second. *)
Theorem log_is_append_only (req : request) (w : world) :
  (exists new,
     messages (snd (send_route req w)) = (messages w ++ new)%list /\
     List.length new <= 1 /\
     Forall (fun m => direction_of m = outbound) new) /\
  (exists new,
     messages (snd (hook req w)) = (messages w ++ new)%list /\
     List.length new <= 1 /\
     Forall (fun m => direction_of m = inbound) new).
Proof.
  split.
  - destruct (send_route_log req w) as [H | (i & t & H)]; rewrite H.
    + exists []. rewrite app_nil_r. repeat split; [cbn; lia | constructor].
    + eexists. repeat split; [cbn; lia | repeat constructor].
  - destruct (hook_log req w) as [H | (fields & i & t & _ & H)]; rewrite H.
    + exists []. rewrite app_nil_r. repeat split; [cbn; lia | constructor].
    + eexists. repeat split; [cbn; lia | repeat constructor].
Qed.

(** X7: if every stored identity is a value that [normalizeUS] leaves
    alone, it is still so after [POST /messages] and after the webhook. *)
Theorem identities_stay_normalised (req : request) (w : world) :
  normalised_log (messages w) ->
  normalised_log (messages (snd (send_route req w))) /\
  normalised_log (messages (snd (hook req w))).
Proof.
  intros Hn. unfold normalised_log in *. split.
  - destruct (send_route_log req w) as [H | (i & t & H)]; rewrite H;
      [assumption|].
    apply Forall_app. split; [assumption|].
    constructor; [apply normalizeUS_twice | constructor].
  - destruct (hook_log req w) as [H | (fields & i & t & _ & H)]; rewrite H;
      [assumption|].
    apply Forall_app. split; [assumption|].
    constructor; [apply normalizeUS_twice | constructor].
Qed.
End LogFacts.

Lemma identities_stay_normalised_witness :
  let w := World [Message "a1" (JStr "+15551234567") inbound (JStr "hi")
                    "2024-03-10T10:00:01.000Z"] [] in
  let req := Request None JUndefined
               (Some [("From", JStr "(555) 987-6543"); ("Body", JStr "yo")]) in
  normalised_log
    (messages
       (snd (post_webhooks_twilio_sms "" (fun _ => Returns (HsResponse None))
               (Returns "b2") (Returns "2024-03-10T10:00:02.000Z") req w))).
Proof.
  cbv zeta.
  refine (proj2 (identities_stay_normalised "AC1" "secret" "MG1" ""
            (fun _ => Returns (User "u1" "rep@example.com"))
            (fun _ => Returns "SM1") (fun _ => Returns (HsResponse None))
            (Returns "b2") (Returns "2024-03-10T10:00:02.000Z") _ _ _)).
  repeat constructor.
Defined.

(** ** What the reading routes answer *)

Lemma listMessages_In (log : list message) (raw : jsval) (m : message) :
  In m (listMessages log raw) <->
  In m log /\ customer_phone m = normalizeUS raw.
Proof.
  unfold listMessages. split.
  - intros H. apply (Permutation_in _ (sort_perm _ _ _)) in H.
    apply filter_In in H as [Hin Heq]. now apply strict_eq_true in Heq.
  - intros [Hin Heq].
    apply (Permutation_in _ (Permutation_sym (sort_perm _ _ _))).
    apply filter_In. split; [assumption | now apply strict_eq_true].
Qed.

(** X8: the thread that [GET /messages] returns holds exactly the stored
    messages whose [customer_phone] is the normalised query, each as often
    as it is stored, oldest first. *)
Theorem listMessages_is_the_thread (log : list message) (raw : jsval) :
  Permutation (listMessages log raw)
    (filter (fun m => strict_eq (customer_phone m) (normalizeUS raw)) log) /\
  (forall m, In m (listMessages log raw) <->
             In m log /\ customer_phone m = normalizeUS raw) /\
  StronglySorted oldest_first (listMessages log raw).
Proof.
  split; [apply sort_perm|]. split; [intros m; apply listMessages_In|].
  apply sort_by_created_at_sorted.
Qed.

(** X9: asking for an identity that no stored message carries is no error:
    the thread is empty and an accepted request is answered 200 with it. *)
Theorem listMessages_unknown_identity (jwt_verify : string -> outcome user)
        (req : request) (w : world) (t : string) (u : user) :
  (forall m, In m (messages w) ->
             customer_phone m <> normalizeUS (query_phone req)) ->
  authorization req = Some ("Bearer " ++ t) -> t <> "" ->
  jwt_verify t = Returns u ->
  listMessages (messages w) (query_phone req) = [] /\
  get_messages jwt_verify req w = (Returns (Response 200 (PMessages [])), w).
Proof.
  intros Hnone Hh Ht Hv.
  assert (Hempty : listMessages (messages w) (query_phone req) = []).
  { destruct (listMessages (messages w) (query_phone req)) as [|m l] eqn:E;
      [reflexivity|].
    assert (Hin : In m (listMessages (messages w) (query_phone req)))
      by (rewrite E; now left).
    apply listMessages_In in Hin as [Hin Heq]. now apply Hnone in Hin. }
  split; [exact Hempty|].
  unfold get_messages.
  rewrite (requireAuth_accepts jwt_verify req _ w t u Hh Ht Hv).
  unfold bind, read_messages, ret. now rewrite Hempty.
Qed.

Lemma listMessages_unknown_identity_witness :
  let w := World [Message "a1" (JStr "+15551234567") inbound (JStr "hi")
                    "2024-03-10T10:00:01.000Z"] [] in
  let req := Request (Some "Bearer good") (JStr "555-000-1111") None in
  get_messages (fun _ => Returns (User "u1" "rep@example.com")) req w
  = (Returns (Response 200 (PMessages [])), w).
Proof.
  cbv zeta.
  refine (proj2 (listMessages_unknown_identity
            (fun _ => Returns (User "u1" "rep@example.com")) _ _ "good"
            (User "u1" "rep@example.com") _ _ _ _));
    try reflexivity; try discriminate.
  intros m [<- | []]. discriminate.
Defined.

Lemma listConversations_entry (log : list message) (s : summary) :
  In s (listConversations log) ->
  (exists msg, In msg log /\ customer_phone msg = s_customer_phone s /\
               created_at msg = last_at s) /\
  (forall msg, In msg log -> customer_phone msg = s_customer_phone s ->
               str_le (created_at msg) (last_at s)).
Proof.
  unfold listConversations. intros Hs.
  apply (Permutation_in _ (sort_perm _ _ _)) in Hs.
  destruct (conversations_map_summarises log) as [Hnd _ Hlatest].
  apply in_map_iff in Hs as ([k v] & <- & Hin). cbn.
  destruct (Hlatest _ _ (map_get_In k v _ Hnd Hin)) as (-> & Hex & Hmax).
  split; assumption.
Qed.

Lemma str_le_antisym (a b : string) : str_le a b -> str_le b a -> a = b.
Proof.
  unfold str_le. intros Hab Hba.
  destruct (str_lt_total a b) as [H | [H | H]]; congruence.
Qed.

Lemma sorted_last {A : Type} (R : A -> A -> Prop) (l : list A) (x y : A) :
  StronglySorted R (l ++ [x]) -> In y l -> R y x.
Proof.
  induction l as [|e l IH]; intros Hs Hin; [contradiction|].
  cbn in Hs. inversion Hs as [|? ? Hs' Hall]; subst.
  destruct Hin as [-> | Hin]; [|now apply IH].
  rewrite Forall_forall in Hall. apply Hall, in_or_app. right. now left.
Qed.

(** X10: the two listings agree.  In a log of normalised identities, the
    [customer_phone] of every conversation that [GET /conversations] lists,
    handed back to [GET /messages], gives a non-empty thread of that
    identity whose last, newest message carries the conversation's
    [last_at]. *)
Theorem conversation_opens_its_thread (log : list message) (s : summary) :
  normalised_log log ->
  In s (listConversations log) ->
  exists earlier newest,
    listMessages log (s_customer_phone s) = (earlier ++ [newest])%list /\
    created_at newest = last_at s /\
    Forall (fun m => customer_phone m = s_customer_phone s /\
                     str_le (created_at m) (last_at s))
      (listMessages log (s_customer_phone s)).
Proof.
  intros Hn Hs.
  destruct (listConversations_entry log s Hs) as ((msg & Hmsg & Hk & Ht) & Hmax).
  assert (Hfix : normalizeUS (s_customer_phone s) = s_customer_phone s).
  { unfold normalised_log in Hn. rewrite Forall_forall in Hn.
    rewrite <- Hk. now apply Hn. }
  assert (Hthread : forall m, In m (listMessages log (s_customer_phone s)) ->
            customer_phone m = s_customer_phone s /\
            str_le (created_at m) (last_at s)).
  { intros m Hm. apply listMessages_In in Hm as [Hin Heq].
    rewrite Hfix in Heq. auto. }
  assert (Hmsg' : In msg (listMessages log (s_customer_phone s))).
  { apply listMessages_In. rewrite Hfix. auto. }
  pose proof (sort_by_created_at_sorted
                (filter (fun m => strict_eq (customer_phone m)
                                    (normalizeUS (s_customer_phone s))) log))
    as Hsorted.
  fold (listMessages log (s_customer_phone s)) in Hsorted.
  destruct (listMessages log (s_customer_phone s)) as [|m0 l0] eqn:E;
    [contradiction|].
  rewrite <- E in *.
  destruct (@exists_last _ (listMessages log (s_customer_phone s)))
    as (earlier & newest & Hlast); [rewrite E; discriminate|].
  exists earlier, newest. split; [exact Hlast|]. split.
  - assert (Hnew : In newest (listMessages log (s_customer_phone s)))
      by (rewrite Hlast; apply in_or_app; right; now left).
    destruct (Hthread _ Hnew) as [_ Hle].
    apply str_le_antisym; [exact Hle|]. rewrite <- Ht.
    rewrite Hlast in Hmsg', Hsorted.
    apply in_app_or in Hmsg' as [Hin | [<- | []]]; [|apply str_le_refl].
    apply (sorted_last oldest_first earlier newest msg Hsorted Hin).
  - apply Forall_forall. exact Hthread.
Qed.

Lemma conversation_opens_its_thread_witness :
  let m1 := Message "a1" (JStr "+15551234567") inbound (JStr "hi")
              "2024-03-10T10:00:01.000Z" in
  let m2 := Message "b2" (JStr "+15551234567") outbound (JStr "hello")
              "2024-03-10T10:00:05.000Z" in
  let s := Summary (JStr "+15551234567") "2024-03-10T10:00:05.000Z" in
  exists earlier newest,
    listMessages [m1; m2] (s_customer_phone s) = (earlier ++ [newest])%list /\
    created_at newest = last_at s /\
    Forall (fun m => customer_phone m = s_customer_phone s /\
                     str_le (created_at m) (last_at s))
      (listMessages [m1; m2] (s_customer_phone s)).
Proof.
  cbv zeta.
  apply (conversation_opens_its_thread
           [Message "a1" (JStr "+15551234567") inbound (JStr "hi")
              "2024-03-10T10:00:01.000Z";
            Message "b2" (JStr "+15551234567") outbound (JStr "hello")
              "2024-03-10T10:00:05.000Z"]
           (Summary (JStr "+15551234567") "2024-03-10T10:00:05.000Z")).
  - repeat constructor.
  - left. reflexivity.
Defined.

(** ** The send path and the webhook, effect by effect *)

Lemma carrier_calls_app (a b : list effect) :
  carrier_calls (a ++ b) = (carrier_calls a ++ carrier_calls b)%list.
Proof.
  induction a as [|[m|r|tag d] a IH]; cbn; [reflexivity | | |]; now rewrite ?IH.
Qed.

Lemma carrier_calls_crm (l : list effect) :
  Forall crm_effect l -> carrier_calls l = [].
Proof.
  induction 1 as [|[m|r|tag d] l Hx _ IH]; cbn; [reflexivity | | |];
    [destruct Hx | exact IH | exact IH].
Qed.

Section RunFacts.
Variables TWILIO_ACCOUNT_SID TWILIO_AUTH_TOKEN : string.
Variables TWILIO_MESSAGING_SERVICE_SID HUBSPOT_TOKEN : string.
Variable jwt_verify : string -> outcome user.
Variable messages_create : sms -> outcome string.
Variable HS_post : hs_request -> outcome hs_response.
Variable randomUUID : outcome string.
Variable toISOString : outcome string.

Local Abbreviation send :=
  (send_handler TWILIO_ACCOUNT_SID TWILIO_AUTH_TOKEN
     TWILIO_MESSAGING_SERVICE_SID HUBSPOT_TOKEN messages_create HS_post
     randomUUID toISOString).
Local Abbreviation send_route :=
  (post_messages TWILIO_ACCOUNT_SID TWILIO_AUTH_TOKEN
     TWILIO_MESSAGING_SERVICE_SID HUBSPOT_TOKEN jwt_verify messages_create
     HS_post randomUUID toISOString).
Local Abbreviation hook :=
  (post_webhooks_twilio_sms HUBSPOT_TOKEN HS_post randomUUID toISOString).
Local Abbreviation configured :=
  (twilio_configured TWILIO_ACCOUNT_SID TWILIO_AUTH_TOKEN
     TWILIO_MESSAGING_SERVICE_SID).
Local Abbreviation carrier_request :=
  (carrier_request TWILIO_MESSAGING_SERVICE_SID).

(** X11: with a recipient and a text but without the Twilio account, token
    or messaging service configured, an accepted request to
    [POST /messages] is answered 500 ["Twilio not configured"]; the carrier
    is not called and nothing is stored or logged. *)
Theorem send_without_configuration (req : request) (w : world)
        (t : string) (u : user) :
  truthy (req_to req) = true -> truthy (req_text req) = true ->
  configured = false ->
  authorization req = Some ("Bearer " ++ t) -> t <> "" ->
  jwt_verify t = Returns u ->
  send_route req w
  = (Returns (Response 500 (PError "Twilio not configured")), w).
Proof.
  intros Hto Hbody Hcfg Hh Ht Hv. unfold post_messages.
  rewrite (requireAuth_accepts jwt_verify req _ w t u Hh Ht Hv).
  now apply send_not_configured.
Qed.

(** X12: a run of [POST /messages] calls the carrier at most once, and
    then for the normalised recipient and the text of the request; a run
    that stores a message has made that call, so what is stored was handed
    to the carrier with the same number and the same text. *)
Theorem send_calls_the_carrier_once (req : request) (w : world) :
  exists new,
    trace (snd (send_route req w)) = (trace w ++ new)%list /\
    (carrier_calls new = [] \/ carrier_calls new = [carrier_request req]) /\
    (forall m,
       messages (snd (send_route req w)) = (messages w ++ [m])%list ->
       carrier_calls new = [carrier_request req] /\
       customer_phone m = sms_to (carrier_request req) /\
       body m = sms_body (carrier_request req)).
Proof.
  assert (Hsame : forall m : message, messages w <> (messages w ++ [m])%list).
  { intros m E. apply (f_equal (@List.length message)) in E.
    rewrite length_app in E. cbn in E. lia. }
  assert (Hearly : forall r, send_route req w = (r, w) ->
    exists new,
      trace (snd (send_route req w)) = (trace w ++ new)%list /\
      (carrier_calls new = [] \/ carrier_calls new = [carrier_request req]) /\
      (forall m,
         messages (snd (send_route req w)) = (messages w ++ [m])%list ->
         carrier_calls new = [carrier_request req] /\
         customer_phone m = sms_to (carrier_request req) /\
         body m = sms_body (carrier_request req))).
  { intros r E. rewrite E. exists []. rewrite app_nil_r.
    split; [reflexivity|]. split; [now left|].
    intros m Hm. cbn in Hm. now apply Hsame in Hm. }
  unfold post_messages in *.
  destruct (requireAuth_cases jwt_verify req (fun _ => send req) w)
    as [H | [H | [u H]]]; [eapply Hearly; eauto | eapply Hearly; eauto |].
  rewrite H in *.
  destruct (truthy (req_to req)) eqn:Hto;
    [|eapply Hearly; apply send_invalid; auto].
  destruct (truthy (req_text req)) eqn:Hbody;
    [|eapply Hearly; apply send_invalid; auto].
  destruct configured eqn:Hcfg;
    [|eapply Hearly; apply send_not_configured; auto].
  destruct (send_committed_trace TWILIO_ACCOUNT_SID TWILIO_AUTH_TOKEN
              TWILIO_MESSAGING_SERVICE_SID HUBSPOT_TOKEN messages_create
              HS_post randomUUID toISOString req w Hto Hbody Hcfg)
    as (rest & Ht & Hrest).
  exists (CarrierCreate (carrier_request req) :: rest).
  split; [exact Ht|].
  assert (Hcalls : carrier_calls (CarrierCreate (carrier_request req) :: rest)
                   = [carrier_request req])
    by (cbn; now rewrite (carrier_calls_crm rest Hrest)).
  split; [now right|]. intros m Hm. split; [exact Hcalls|].
  destruct (send_log TWILIO_ACCOUNT_SID TWILIO_AUTH_TOKEN
              TWILIO_MESSAGING_SERVICE_SID HUBSPOT_TOKEN messages_create
              HS_post randomUUID toISOString req w) as [E | (i & t & E)];
    rewrite E in Hm; [now apply Hsame in Hm|].
  apply app_inv_head in Hm. injection Hm as <-. split; reflexivity.
Qed.


(** X14: a webhook whose body was not parsed, or for which [id()] or
    [now()] throws, stores nothing: the only trace it leaves is one
    ["Webhook error"] line on the console (and it is acknowledged like any
    other). *)
Theorem webhook_failure_stores_nothing (req : request) (w : world) :
  req_body req = None \/ (exists e, randomUUID = Throws e) \/
  (exists e, toISOString = Throws e) ->
  exists detail,
    hook req w
    = (Returns (Response 200 (PXml "<Response/>")),
       World (messages w)
         (trace w ++ [ConsoleError "Webhook error" detail])).
Proof.
  intros H.
  unfold post_webhooks_twilio_sms, webhook_catch, try_catch, bind, id', now,
    push, ret, console_error.
  unfold emit, lift.
  destruct (req_body req) as [fields|]; [|eexists; reflexivity].
  destruct H as [H | [[e H] | [e H]]]; [discriminate H | |].
  - rewrite H. eexists. reflexivity.
  - rewrite H. destruct randomUUID; eexists; reflexivity.
Qed.
End RunFacts.

Lemma send_without_configuration_witness :
  let req := Request (Some "Bearer good") JUndefined
               (Some [("to", JStr "(555) 123-4567"); ("body", JStr "hello")]) in
  post_messages "AC1" "secret" "" "" (fun _ => Returns (User "u1" "rep@example.com"))
    (fun _ => Returns "SM1") (fun _ => Returns (HsResponse None))
    (Returns "a1") (Returns "2024-03-10T10:00:01.000Z") req (World [] [])
  = (Returns (Response 500 (PError "Twilio not configured")), World [] []).
Proof.
  cbv zeta.
  apply (send_without_configuration "AC1" "secret" "" ""
           (fun _ => Returns (User "u1" "rep@example.com"))
           (fun _ => Returns "SM1") (fun _ => Returns (HsResponse None))
           (Returns "a1") (Returns "2024-03-10T10:00:01.000Z") _ (World [] [])
           "good" (User "u1" "rep@example.com"));
    solve [reflexivity | discriminate].
Defined.


Lemma webhook_failure_stores_nothing_witness :
  exists detail,
    post_webhooks_twilio_sms "" (fun _ => Returns (HsResponse None))
      (Returns "a1") (Returns "2024-03-10T10:00:01.000Z")
      (Request None JUndefined None) (World [] [])
    = (Returns (Response 200 (PXml "<Response/>")),
       World [] [ConsoleError "Webhook error" detail]).
Proof.
  apply (webhook_failure_stores_nothing "" (fun _ => Returns (HsResponse None))
           (Returns "a1") (Returns "2024-03-10T10:00:01.000Z")
           (Request None JUndefined None) (World [] [])).
  left. reflexivity.
Defined.

(** ** [logToHubSpot], call by call *)

Section CrmFacts.
Variable HUBSPOT_TOKEN : string.
Variable HS_post : hs_request -> outcome hs_response.
Hypothesis token_set : HUBSPOT_TOKEN <> "".

Local Abbreviation record := (logToHubSpot HUBSPOT_TOKEN HS_post).

(** The number under which the contact is looked up. *)
Local Abbreviation contact_phone ev :=
  (normalizeUS (js_or (ev_from ev) (ev_to ev))).

(** X15: with a token set, when the contact search returns a hit with an
    id, the CRM is called exactly twice: the search for the normalised
    number, then the note, associated with the contact found.  No contact
    is created. *)
Theorem crm_reuses_found_contact (ev : event) (w : world)
        (found : hs_response) :
  HS_post (ContactsSearch (contact_phone ev)) = Returns found ->
  truthy (first_result_id found) = true ->
  exists new,
    trace (snd (record ev w)) = (trace w ++ new)%list /\
    crm_calls new
    = [ContactsSearch (contact_phone ev);
       NotesCreate (ev_ts ev) (note_body ev) (Some (first_result_id found))].
Proof.
  intros Hsearch Hhit. unfold logToHubSpot.
  rewrite (truthy_nonempty _ token_set). cbn [negb].
  unfold post, console_error. unfold try_catch, bind, emit, lift, ret.
  rewrite Hsearch, Hhit. cbn [negb messages trace fst snd].
  destruct (HS_post (NotesCreate _ _ _)) as [r|e]; cbn [messages trace fst snd];
    rewrite <- ?app_assoc; eexists; (split; [reflexivity|]);
    cbn; rewrite Hhit; reflexivity.
Qed.

(** X16: with a token set, when the search finds no contact, one is created
    for the normalised number; if the creation answers with data, the note
    follows, associated with the new contact's id (with nothing when that id
    is empty); if the creation throws or answers without data, no note is
    written and one ["HubSpot log error"] line is logged. *)
Theorem crm_creates_missing_contact (ev : event) (w : world)
        (found : hs_response) :
  HS_post (ContactsSearch (contact_phone ev)) = Returns found ->
  truthy (first_result_id found) = false ->
  exists new,
    trace (snd (record ev w)) = (trace w ++ new)%list /\
    match HS_post (ContactsCreate (contact_phone ev)) with
    | Returns (HsResponse (Some d)) =>
        crm_calls new
        = [ContactsSearch (contact_phone ev);
           ContactsCreate (contact_phone ev);
           NotesCreate (ev_ts ev) (note_body ev)
             (if truthy (data_id d) then Some (data_id d) else None)]
    | _ =>
        exists detail,
          new = [HubSpotPost (ContactsSearch (contact_phone ev));
                 HubSpotPost (ContactsCreate (contact_phone ev));
                 ConsoleError "HubSpot log error" detail]
    end.
Proof.
  intros Hsearch Hmiss. unfold logToHubSpot.
  rewrite (truthy_nonempty _ token_set). cbn [negb].
  unfold post, console_error, created_id.
  unfold try_catch, bind, emit, lift, ret.
  rewrite Hsearch, Hmiss. cbn [negb messages trace fst snd].
  destruct (HS_post (ContactsCreate _)) as [[[d|]]|e];
    cbn [messages trace fst snd data].
  - destruct (HS_post (NotesCreate _ _ _)) as [r|e];
      cbn [messages trace fst snd];
      rewrite <- ?app_assoc; eexists; (split; [reflexivity|]); reflexivity.
  - rewrite <- ?app_assoc. eexists. split; [reflexivity|].
    eexists. reflexivity.
  - rewrite <- ?app_assoc. eexists. split; [reflexivity|].
    eexists. reflexivity.
Qed.
End CrmFacts.

Lemma crm_reuses_found_contact_witness :
  let crm := fun r : hs_request =>
    match r with
    | ContactsSearch _ =>
        Returns (HsResponse (Some (HsData (Some [JStr "901"]) JUndefined)))
    | _ => Returns (HsResponse (Some (HsData None (JStr "77"))))
    end in
  let ev := Event (JStr "+15551234567") JNull (JStr "hi")
              "2024-03-10T10:00:01.000Z" in
  exists new,
    trace (snd (logToHubSpot "hs-token" crm ev (World [] [])))
      = ([] ++ new)%list /\
    crm_calls new
    = [ContactsSearch (JStr "+15551234567");
       NotesCreate "2024-03-10T10:00:01.000Z" (note_body ev)
         (Some (JStr "901"))].
Proof.
  cbv zeta.
  refine (crm_reuses_found_contact "hs-token" _ _
            (Event (JStr "+15551234567") JNull (JStr "hi")
               "2024-03-10T10:00:01.000Z")
            (World [] [])
            (HsResponse (Some (HsData (Some [JStr "901"]) JUndefined)))
            _ _);
    solve [reflexivity | discriminate].
Defined.

Lemma crm_creates_missing_contact_witness :
  let crm := fun r : hs_request =>
    match r with
    | ContactsSearch _ => Returns (HsResponse (Some (HsData (Some []) JUndefined)))
    | _ => Returns (HsResponse (Some (HsData None (JStr "77"))))
    end in
  let ev := Event JNull (JStr "+15551234567") (JStr "hello")
              "2024-03-10T10:00:01.000Z" in
  exists new,
    trace (snd (logToHubSpot "hs-token" crm ev (World [] [])))
      = ([] ++ new)%list /\
    crm_calls new
    = [ContactsSearch (JStr "+15551234567");
       ContactsCreate (JStr "+15551234567");
       NotesCreate "2024-03-10T10:00:01.000Z" (note_body ev)
         (Some (JStr "77"))].
Proof.
  cbv zeta.
  refine (crm_creates_missing_contact "hs-token" _ _
            (Event JNull (JStr "+15551234567") (JStr "hello")
               "2024-03-10T10:00:01.000Z")
            (World [] [])
            (HsResponse (Some (HsData (Some []) JUndefined)))
            _ _);
    solve [reflexivity | discriminate].
Defined.

(** ** [POST /auth/login] *)

Lemma find_by_email_None (email : jsval) (users : list account) :
  find_by_email email users = None <->
  forall a, In a users -> JStr (account_email a) <> email.
Proof.
  induction users as [|x users IH]; cbn; [intuition|].
  destruct (strict_eq (JStr (account_email x)) email) eqn:E.
  - apply strict_eq_true in E. split; [discriminate|].
    intros H. exfalso. apply (H x); auto.
  - rewrite IH. split.
    + intros H a [<- | Ha]; [|now apply H].
      intros E'. apply strict_eq_true in E'. congruence.
    + intros H a Ha. apply H. now right.
Qed.

Lemma find_by_email_Some (email : jsval) (users : list account) (u : account) :
  find_by_email email users = Some u ->
  In u users /\ email = JStr (account_email u).
Proof.
  induction users as [|x users IH]; cbn; [discriminate|].
  destruct (strict_eq (JStr (account_email x)) email) eqn:E.
  - apply strict_eq_true in E. intros [= <-]. auto.
  - intros H. destruct (IH H). auto.
Qed.

Lemma strict_eq_false (a b : jsval) : strict_eq a b = false <-> a <> b.
Proof. unfold strict_eq. destruct (jsval_eq_dec a b); split; congruence. Qed.

(** X17: a login fails in one way only.  Whether no account has the email
    given or the account found has another password, the answer is the same
    401 [{ error: "Invalid credentials" }]; nothing is signed and nothing
    else happens. *)
Theorem login_failure_is_uniform (users : list account)
        (jwt_sign : user -> outcome string) (req : request) (w : world) :
  (forall a, In a users -> JStr (account_email a) <> req_email req) \/
  (exists u, find_by_email (req_email req) users = Some u /\
             req_password req <> JStr (account_password u)) ->
  post_auth_login users jwt_sign req w
  = (Returns (LoginResponse 401 (LoginError "Invalid credentials")), w).
Proof.
  intros H. unfold post_auth_login.
  fold (req_email req) (req_password req).
  destruct H as [H | (u & Hu & Hp)].
  - apply find_by_email_None in H. now rewrite H.
  - rewrite Hu. apply strict_eq_false in Hp. now rewrite Hp.
Qed.

(** X18: a login is answered 200 only for the email and the password of an
    account of [users], the first with that email; the token is what
    [jwt.sign] returned for [{ sub: id, email }] of that account, and the
    body names that account's id and email. *)
Theorem login_success_is_sound (users : list account)
        (jwt_sign : user -> outcome string) (req : request) (w : world)
        (r : login_response) :
  fst (post_auth_login users jwt_sign req w) = Returns r ->
  login_status r = 200 ->
  exists u token,
    find_by_email (req_email req) users = Some u /\ In u users /\
    req_email req = JStr (account_email u) /\
    req_password req = JStr (account_password u) /\
    jwt_sign (User (account_id u) (account_email u)) = Returns token /\
    r = LoginResponse 200 (LoginOk token (account_id u) (account_email u)) /\
    snd (post_auth_login users jwt_sign req w) = w.
Proof.
  unfold post_auth_login. fold (req_email req) (req_password req).
  destruct (find_by_email (req_email req) users) as [u|] eqn:Hu;
    [|intros [= <-]; discriminate].
  destruct (strict_eq (req_password req) (JStr (account_password u))) eqn:Hp;
    cbn [negb]; [|intros [= <-]; discriminate].
  unfold bind, lift, ret.
  destruct (jwt_sign _) as [token|e] eqn:Hs; cbn; [|discriminate].
  intros [= <-] _. exists u, token.
  destruct (find_by_email_Some _ _ _ Hu) as [Hin He].
  apply strict_eq_true in Hp. repeat split; auto.
Qed.

Lemma login_failure_is_uniform_witness :
  let sign := fun _ : user => Returns "signed" in
  post_auth_login demo_users sign
    (Request None JUndefined
       (Some [("email", JStr "rep@example.com"); ("password", JStr "guess")]))
    (World [] [])
  = post_auth_login demo_users sign
      (Request None JUndefined
         (Some [("email", JStr "nobody@example.com");
                ("password", JStr "password")]))
      (World [] []).
Proof.
  cbv zeta.
  rewrite (login_failure_is_uniform demo_users (fun _ => Returns "signed")
             (Request None JUndefined
                (Some [("email", JStr "rep@example.com");
                       ("password", JStr "guess")]))
             (World [] [])).
  - rewrite (login_failure_is_uniform demo_users (fun _ => Returns "signed")
               (Request None JUndefined
                  (Some [("email", JStr "nobody@example.com");
                         ("password", JStr "password")]))
               (World [] [])); [reflexivity|].
    left. intros a [<- | []]. discriminate.
  - right. eexists. split; [reflexivity | discriminate].
Defined.

Lemma login_success_is_sound_witness :
  exists u token,
    find_by_email (JStr "rep@example.com") demo_users = Some u /\
    In u demo_users /\
    JStr "rep@example.com" = JStr (account_email u) /\
    JStr "password" = JStr (account_password u) /\
    (fun _ : user => Returns "signed") (User (account_id u) (account_email u))
      = Returns token /\
    LoginResponse 200 (LoginOk "signed" "u1" "rep@example.com")
      = LoginResponse 200 (LoginOk token (account_id u) (account_email u)) /\
    snd (post_auth_login demo_users (fun _ => Returns "signed")
           (Request None JUndefined
              (Some [("email", JStr "rep@example.com");
                     ("password", JStr "password")]))
           (World [] []))
    = World [] [].
Proof.
  exact (login_success_is_sound demo_users (fun _ => Returns "signed")
           (Request None JUndefined
              (Some [("email", JStr "rep@example.com");
                     ("password", JStr "password")]))
           (World [] [])
           (LoginResponse 200 (LoginOk "signed" "u1" "rep@example.com"))
           eq_refl eq_refl).
Defined.

(** X19: login and [requireAuth] fit together.  For the email and password
    of an account, when [jwt.sign] returns a non-empty token that
    [jwt.verify] reads back as the signed payload, the login answers 200
    with that token, and a request carrying it as ["Bearer <token>"] passes
    [requireAuth], the handler running as that account. *)
Theorem login_token_opens_the_routes (users : list account)
        (jwt_sign : user -> outcome string)
        (jwt_verify : string -> outcome user)
        (req : request) (w : world) (u : account) (token : string) :
  find_by_email (req_email req) users = Some u ->
  req_password req = JStr (account_password u) ->
  jwt_sign (User (account_id u) (account_email u)) = Returns token ->
  token <> "" ->
  jwt_verify token = Returns (User (account_id u) (account_email u)) ->
  post_auth_login users jwt_sign req w
  = (Returns (LoginResponse 200
                (LoginOk token (account_id u) (account_email u))), w) /\
  (forall req' next w',
     authorization req' = Some ("Bearer " ++ token) ->
     requireAuth jwt_verify req' next w'
     = next (User (account_id u) (account_email u)) w').
Proof.
  intros Hu Hp Hs Ht Hv. split.
  - unfold post_auth_login. fold (req_email req) (req_password req).
    rewrite Hu, Hp, strict_eq_refl. cbn [negb].
    unfold bind, lift, ret. now rewrite Hs.
  - intros req' next w' Hh.
    now apply (requireAuth_accepts jwt_verify req' next w' token).
Qed.

Lemma login_token_opens_the_routes_witness :
  let sign := fun p : user => Returns ("jwt." ++ sub p) in
  let verify := fun t : string =>
    if (t =? "jwt.u1")%string then Returns (User "u1" "rep@example.com")
    else Throws (JsError JUndefined "invalid signature") in
  post_auth_login demo_users sign
    (Request None JUndefined
       (Some [("email", JStr "rep@example.com");
              ("password", JStr "password")]))
    (World [] [])
  = (Returns (LoginResponse 200 (LoginOk "jwt.u1" "u1" "rep@example.com")),
     World [] []) /\
  (forall req' next w',
     authorization req' = Some ("Bearer " ++ "jwt.u1") ->
     requireAuth verify req' next w' = next (User "u1" "rep@example.com") w').
Proof.
  cbv zeta.
  refine (login_token_opens_the_routes demo_users _ _
            (Request None JUndefined
               (Some [("email", JStr "rep@example.com");
                      ("password", JStr "password")]))
            (World [] [])
            (Account "u1" "rep@example.com" "password" JNull) "jwt.u1"
            _ _ _ _ _);
    solve [reflexivity | discriminate].
Defined.

(** ** One conversation for both directions *)

(** X20: an inbound message and an outbound message for numbers with the
    same normal form end up in one thread.  After a webhook from [From] and
    a send to [to] that the carrier accepted, [GET /messages] for any query
    with that normal form lists both messages, the inbound one first when
    its clock reading is not the later one. *)
Theorem inbound_and_outbound_share_a_thread
        (TWILIO_ACCOUNT_SID TWILIO_AUTH_TOKEN : string)
        (TWILIO_MESSAGING_SERVICE_SID HUBSPOT_TOKEN : string)
        (messages_create : sms -> outcome string)
        (HS_post : hs_request -> outcome hs_response)
        (fields : list (string * jsval)) (i1 t1 : string)
        (req2 : request) (sid i2 t2 : string) (w : world) (q : jsval) :
  normalizeUS q = normalizeUS (field "From" fields) ->
  normalizeUS q = normalizeUS (req_to req2) ->
  truthy (req_to req2) = true -> truthy (req_text req2) = true ->
  twilio_configured TWILIO_ACCOUNT_SID TWILIO_AUTH_TOKEN
    TWILIO_MESSAGING_SERVICE_SID = true ->
  messages_create (carrier_request TWILIO_MESSAGING_SERVICE_SID req2)
    = Returns sid ->
  let w1 := snd (post_webhooks_twilio_sms HUBSPOT_TOKEN HS_post
                   (Returns i1) (Returns t1)
                   (Request None JUndefined (Some fields)) w) in
  let w2 := snd (send_handler TWILIO_ACCOUNT_SID TWILIO_AUTH_TOKEN
                   TWILIO_MESSAGING_SERVICE_SID HUBSPOT_TOKEN messages_create
                   HS_post (Returns i2) (Returns t2) req2 w1) in
  let m_in := Message i1 (normalizeUS (field "From" fields)) inbound
                (js_or (field "Body" fields) (JStr "")) t1 in
  let m_out := Message i2 (normalizeUS (req_to req2)) outbound
                 (req_text req2) t2 in
  In m_in (listMessages (messages w2) q) /\
  In m_out (listMessages (messages w2) q) /\
  (str_le t1 t2 ->
   exists a b c,
     listMessages (messages w2) q = (a ++ m_in :: b ++ m_out :: c)%list).
Proof.
  intros Hin Hout Hto Hbody Hcfg Hok w1 w2 m_in m_out.
  assert (H1 : messages w1 = (messages w ++ [m_in])%list)
    by apply webhook_appends.
  assert (H2 : messages w2 = (messages w1 ++ [m_out])%list).
  { apply (send_accepted TWILIO_ACCOUNT_SID TWILIO_AUTH_TOKEN
             TWILIO_MESSAGING_SERVICE_SID HUBSPOT_TOKEN messages_create
             HS_post (Returns i2) (Returns t2) req2 w1 sid i2 t2);
      auto. }
  rewrite H2, H1, <- app_assoc. cbn [app].
  split; [|split].
  - apply listMessages_In. split; [|now symmetry].
    apply in_or_app. right. now left.
  - apply listMessages_In. split; [|now symmetry].
    apply in_or_app. right. right. now left.
  - intros Hle. apply before_split. apply listMessages_before.
    + apply before_split. now exists (messages w), [], [].
    + now symmetry.
    + now symmetry.
    + exact Hle.
Qed.

Lemma inbound_and_outbound_share_a_thread_witness :
  let hs := fun _ : hs_request => Returns (HsResponse None) in
  let w1 := snd (post_webhooks_twilio_sms "" hs (Returns "a1")
                   (Returns "2024-03-10T10:00:01.000Z")
                   (Request None JUndefined
                      (Some [("From", JStr "+15551234567");
                             ("Body", JStr "hi")]))
                   (World [] [])) in
  let w2 := snd (send_handler "AC1" "secret" "MG1" "" (fun _ => Returns "SM1")
                   hs (Returns "b2") (Returns "2024-03-10T10:00:05.000Z")
                   (Request None JUndefined
                      (Some [("to", JStr "(555) 123-4567");
                             ("body", JStr "hello")]))
                   w1) in
  In (Message "a1" (JStr "+15551234567") inbound (JStr "hi")
        "2024-03-10T10:00:01.000Z")
     (listMessages (messages w2) (JStr "555.123.4567")).
Proof.
  cbv zeta.
  refine (proj1 (inbound_and_outbound_share_a_thread "AC1" "secret" "MG1" ""
            (fun _ => Returns "SM1") (fun _ => Returns (HsResponse None))
            [("From", JStr "+15551234567"); ("Body", JStr "hi")]
            "a1" "2024-03-10T10:00:01.000Z"
            (Request None JUndefined
               (Some [("to", JStr "(555) 123-4567"); ("body", JStr "hello")]))
            "SM1" "b2" "2024-03-10T10:00:05.000Z" (World [] [])
            (JStr "555.123.4567") _ _ _ _ _ _));
    reflexivity.
Defined.
